(** * pm2 management service (index.js): log retrieval, process control
      and the WebSocket log streaming path.

    The service is a single Node.js module.  Its functions are embedded
    here as Rocq functions over an explicit [World]: the file system, the
    supervisor reached through [exec], the console, the spawned [tail]
    processes and the connected sockets.  Code that can throw runs in a
    small state-and-exception monad so that [try]/[catch] is modelled as
    it is written. *)

From Stdlib Require Import NArith ZArith Ascii List Lia.
From Stdlib Require String.
From stdpp Require Import base option list strings gmap.
Import ListNotations.

Set Warnings "-register-all".

(** ** JavaScript strings

    A JavaScript string is a sequence of UTF-16 code units.  Source
    literals are ASCII; [lit] embeds them. *)

Abbreviation jsstring := (list N).

Definition lit (s : string) : jsstring :=
  map N_of_ascii (String.list_ascii_of_string s).

Definition NL : N := 10.

(** [String.prototype.split] with a one-unit separator: the segments
    between occurrences, the empty string giving one empty segment. *)
Fixpoint split (sep : N) (s : jsstring) : list jsstring :=
  match s with
  | [] => [[]]
  | c :: s' =>
      if N.eqb c sep then [] :: split sep s'
      else match split sep s' with
           | seg :: rest => (c :: seg) :: rest
           | [] => [[c]]
           end
  end.

(** ECMAScript WhiteSpace and LineTerminator code units, the ones
    [String.prototype.trim] strips. *)
Definition is_ws (c : N) : bool :=
  (N.eqb c 9 || N.eqb c 10 || N.eqb c 11 || N.eqb c 12 || N.eqb c 13
   || N.eqb c 32 || N.eqb c 160 || N.eqb c 5760
   || (N.leb 8192 c && N.leb c 8202)
   || N.eqb c 8232 || N.eqb c 8233 || N.eqb c 8239 || N.eqb c 8287
   || N.eqb c 12288 || N.eqb c 65279)%bool.

Fixpoint trimStart (s : jsstring) : jsstring :=
  match s with
  | [] => []
  | c :: s' => if is_ws c then trimStart s' else s
  end.

Definition trimEnd (s : jsstring) : jsstring := rev (trimStart (rev s)).

Definition trim (s : jsstring) : jsstring := trimEnd (trimStart s).

(** Truthiness of a string: non-empty. *)
Definition truthy_str (s : jsstring) : bool :=
  match s with [] => false | _ => true end.

(** [content.split('\n').filter(line => line.trim())] *)
Definition nonblank_lines (content : jsstring) : list jsstring :=
  List.filter (fun line => truthy_str (trim line)) (split NL content).

(** [arr.slice(-n)] for [n > 0]: the last [n] elements. *)
Definition slice_last {A} (n : nat) (l : list A) : list A :=
  drop (length l - n) l.

(** [arr.slice(0, n)] *)
Definition slice_first {A} (n : nat) (l : list A) : list A := take n l.

(** [arr.join('\n')] *)
Fixpoint join_nl (l : list jsstring) : jsstring :=
  match l with
  | [] => []
  | [x] => x
  | x :: rest => x ++ NL :: join_nl rest
  end.

(** A complete line of a file: its text and the terminator. *)
Definition ln (s : string) : jsstring := lit s ++ [NL].

(** ** JavaScript values

    The values that flow through the service: what [JSON.parse] returns,
    what is handed to [JSON.stringify].  An object is its list of
    properties in insertion order.  Numbers are integers here: the
    supervisor's fractional readings are passed through unchanged and no
    arithmetic is done on them. *)

Inductive jsval :=
| VUndef
| VNull
| VBool (b : bool)
| VNum (n : Z)
| VStr (s : jsstring)
| VArr (l : list jsval)
| VObj (props : list (string * jsval)).

Fixpoint assoc (k : string) (props : list (string * jsval)) : option jsval :=
  match props with
  | [] => None
  | (k', v) :: rest => if String.eqb k k' then Some v else assoc k rest
  end.

(** Truthiness, as used by [||], [!] and [if]. *)
Definition truthy (v : jsval) : bool :=
  match v with
  | VUndef | VNull => false
  | VBool b => b
  | VNum n => negb (Z.eqb n 0)
  | VStr s => truthy_str s
  | VArr _ | VObj _ => true
  end.

(** [a || b] *)
Definition js_or (a b : jsval) : jsval := if truthy a then a else b.

(** ** Results and the service monad *)

Inductive Res (A : Type) :=
| Ok (a : A)
| Throw (message : jsstring).
Arguments Ok {A} a.
Arguments Throw {A} message.

(** [v.k]: a TypeError on [null] and [undefined], [undefined] for a
    property that is absent (the service reads no built-in property of
    arrays, strings or numbers). *)
Definition get_prop (v : jsval) (k : string) : Res jsval :=
  match v with
  | VUndef =>
      Throw (lit "Cannot read properties of undefined (reading '"
               ++ lit k ++ lit "')")
  | VNull =>
      Throw (lit "Cannot read properties of null (reading '"
               ++ lit k ++ lit "')")
  | VObj props => Ok (default VUndef (assoc k props))
  | _ => Ok VUndef
  end.

(** [v?.k] *)
Definition get_prop_opt (v : jsval) (k : string) : Res jsval :=
  match v with
  | VUndef | VNull => Ok VUndef
  | _ => get_prop v k
  end.

Definition rbind {A B} (r : Res A) (k : A -> Res B) : Res B :=
  match r with
  | Ok a => k a
  | Throw e => Throw e
  end.

Declare Scope res_scope.
Delimit Scope res_scope with res.
Notation "x <-? r ;; k" := (rbind r (fun x => k))
  (at level 100, r at next level, right associativity) : res_scope.

(** [Array.prototype.find] with a predicate that may throw. *)
Fixpoint js_find (pred : jsval -> Res bool) (l : list jsval) : Res jsval :=
  match l with
  | [] => Ok VUndef
  | p :: rest =>
      match pred p with
      | Ok true => Ok p
      | Ok false => js_find pred rest
      | Throw e => Throw e
      end
  end.

(** [Array.prototype.map] with a callback that may throw. *)
Fixpoint js_map (f : jsval -> Res jsval) (l : list jsval) : Res (list jsval) :=
  match l with
  | [] => Ok []
  | p :: rest =>
      match f p with
      | Ok v => match js_map f rest with
                | Ok vs => Ok (v :: vs)
                | Throw e => Throw e
                end
      | Throw e => Throw e
      end
  end.

(** The receiver of [processes.find] or [processes.map]: the elements of
    an array, a TypeError otherwise. *)
Definition array_of (v : jsval) (method : string) : Res (list jsval) :=
  match v with
  | VArr l => Ok l
  | VUndef | VNull => rbind (get_prop v method) (fun _ => Ok [])
  | _ => Throw (lit "processes." ++ lit method ++ lit " is not a function")
  end.

(** [v === s] for a string [s] *)
Definition strict_eq_str (v : jsval) (s : jsstring) : bool :=
  match v with
  | VStr s' => bool_decide (s' = s)
  | _ => false
  end.

(** ** The world the service runs in *)

(** A file: its identity (device and inode), whether the service may
    read it, and its content. *)
Record File := mkFile {
  ino : N;
  readable : bool;
  content : jsstring
}.

(** The two log channels, ['out'] and ['error']. *)
Inductive Channel := COut | CError.

Definition channel_name (c : Channel) : jsstring :=
  match c with COut => lit "out" | CError => lit "error" end.

(** A [tail -f -n 0 path] child process together with the ['data']
    listener installed on its stdout.  The listener is a closure over the
    socket, the process name and the channel; [t_open] and [t_pos] are the
    open descriptor of [tail]: the identity of the file it opened when it
    started ([None] when it could not open it) and how far it has read;
    [t_kills] counts the [kill()] calls it received. *)
Record TailProc := mkTail {
  t_path : jsstring;
  t_open : option N;
  t_pos : nat;
  t_kills : nat;
  t_ws : nat;
  t_process : jsstring;
  t_channel : Channel
}.

(** The variables a [streamLogs] call closes over; [cleanup] reads and
    writes them. *)
Record StreamEnv := mkEnv {
  tailProcess : option nat;
  watchers : list jsstring
}.

(** Listeners registered on a socket, as closures. *)
Inductive Listener :=
| LCleanup (env : nat)
| LGatewayClose (processName : jsstring)
| LGatewayError (processName : jsstring).

Record WebSocket := mkWs {
  readyState : N;
  sent : list jsval;
  closed_with : option (N * jsstring);
  on_message : bool;
  on_close : list Listener;
  on_error : list Listener
}.

(** What [exec] of a command line yields. *)
Inductive ExecResult :=
| ExecOk (stdout stderr : jsstring)
| ExecFail (message : jsstring).

(** The world: the environment the module reads ([HOME], [JSON.parse],
    the supervisor's answer to the n-th command handed to [exec], the
    clock, the file system) and what the service has done so far. *)
Record World := mkWorld {
  HOME : option jsstring;
  JSON_parse : jsstring -> Res jsval;
  supervisor : nat -> jsstring -> ExecResult;
  execd : list jsstring;
  fs : gmap jsstring File;
  next_ino : N;
  now : jsstring;
  console : list jsstring;
  tails : list TailProc;
  envs : list StreamEnv;
  sockets : list WebSocket;
  wsConnections : gmap nat (jsstring * nat);
  unwatched : list jsstring
}.

Definition M (A : Type) : Type := World -> Res A * World.

Definition ret {A} (a : A) : M A := fun w => (Ok a, w).

Definition bind {A B} (m : M A) (k : A -> M B) : M B :=
  fun w => match m w with
           | (Ok a, w') => k a w'
           | (Throw e, w') => (Throw e, w')
           end.

Definition throw {A} (e : jsstring) : M A := fun w => (Throw e, w).

(** [try { body } catch (error) { handler(error.message) }] *)
Definition try_catch {A} (body : M A) (handler : jsstring -> M A) : M A :=
  fun w => match body w with
           | (Ok a, w') => (Ok a, w')
           | (Throw e, w') => handler e w'
           end.

Definition lift {A} (r : Res A) : M A := fun w => (r, w).

Definition get : M World := fun w => (Ok w, w).
Definition modify (f : World -> World) : M unit := fun w => (Ok tt, f w).

Declare Scope js_scope.
Delimit Scope js_scope with js.
Notation "x <- m ;; k" := (bind m (fun x => k))
  (at level 100, m at next level, right associativity) : js_scope.
Notation "m ;;; k" := (bind m (fun _ => k))
  (at level 100, right associativity) : js_scope.
Local Open Scope js_scope.

(** Field updates of the world. *)
Definition with_execd (x : list jsstring) (w : World) : World :=
  mkWorld (HOME w) (JSON_parse w) (supervisor w)
    x (fs w) (next_ino w) (now w) (console w) (tails w) (envs w) (sockets w) (wsConnections w) (unwatched w).
Definition with_fs (x : gmap jsstring File) (w : World) : World :=
  mkWorld (HOME w) (JSON_parse w) (supervisor w)
    (execd w) x (next_ino w) (now w) (console w) (tails w) (envs w) (sockets w) (wsConnections w) (unwatched w).
Definition with_next_ino (x : N) (w : World) : World :=
  mkWorld (HOME w) (JSON_parse w) (supervisor w)
    (execd w) (fs w) x (now w) (console w) (tails w) (envs w) (sockets w) (wsConnections w) (unwatched w).
Definition with_now (x : jsstring) (w : World) : World :=
  mkWorld (HOME w) (JSON_parse w) (supervisor w)
    (execd w) (fs w) (next_ino w) x (console w) (tails w) (envs w) (sockets w) (wsConnections w) (unwatched w).
Definition with_console (x : list jsstring) (w : World) : World :=
  mkWorld (HOME w) (JSON_parse w) (supervisor w)
    (execd w) (fs w) (next_ino w) (now w) x (tails w) (envs w) (sockets w) (wsConnections w) (unwatched w).
Definition with_tails (x : list TailProc) (w : World) : World :=
  mkWorld (HOME w) (JSON_parse w) (supervisor w)
    (execd w) (fs w) (next_ino w) (now w) (console w) x (envs w) (sockets w) (wsConnections w) (unwatched w).
Definition with_envs (x : list StreamEnv) (w : World) : World :=
  mkWorld (HOME w) (JSON_parse w) (supervisor w)
    (execd w) (fs w) (next_ino w) (now w) (console w) (tails w) x (sockets w) (wsConnections w) (unwatched w).
Definition with_sockets (x : list WebSocket) (w : World) : World :=
  mkWorld (HOME w) (JSON_parse w) (supervisor w)
    (execd w) (fs w) (next_ino w) (now w) (console w) (tails w) (envs w) x (wsConnections w) (unwatched w).
Definition with_wsConnections (x : gmap nat (jsstring * nat)) (w : World) : World :=
  mkWorld (HOME w) (JSON_parse w) (supervisor w)
    (execd w) (fs w) (next_ino w) (now w) (console w) (tails w) (envs w) (sockets w) x (unwatched w).
Definition with_unwatched (x : list jsstring) (w : World) : World :=
  mkWorld (HOME w) (JSON_parse w) (supervisor w)
    (execd w) (fs w) (next_ino w) (now w) (console w) (tails w) (envs w) (sockets w) (wsConnections w) x.

(** *** File system

    [readFileSync] fails on a missing file and on one the service may not
    read.  The writes here are those of a disk that takes every write; a
    write that creates the file gives it a fresh identity.  Writes that
    the operating system refuses are in [Faulty], below. *)

Definition existsSync (p : jsstring) : M bool :=
  fun w => (Ok (bool_decide (is_Some (fs w !! p))), w).

Definition readFileSync (p : jsstring) : M jsstring :=
  fun w => match fs w !! p with
           | Some f =>
               if readable f then (Ok (content f), w)
               else (Throw (lit "EACCES: permission denied, open '"
                              ++ p ++ lit "'"), w)
           | None =>
               (Throw (lit "ENOENT: no such file or directory, open '"
                         ++ p ++ lit "'"), w)
           end.

Definition writeFileSync (p data : jsstring) : M unit :=
  fun w => match fs w !! p with
           | Some f =>
               (Ok tt, with_fs (<[p := mkFile (ino f) (readable f) data]> (fs w)) w)
           | None =>
               (Ok tt, with_next_ino (N.succ (next_ino w))
                         (with_fs (<[p := mkFile (next_ino w) true data]> (fs w)) w))
           end.

Definition appendFileSync (p data : jsstring) : M unit :=
  fun w => match fs w !! p with
           | Some f =>
               (Ok tt, with_fs (<[p := mkFile (ino f) (readable f)
                                          (content f ++ data)]> (fs w)) w)
           | None =>
               (Ok tt, with_next_ino (N.succ (next_ino w))
                         (with_fs (<[p := mkFile (next_ino w) true data]> (fs w)) w))
           end.

(** *** The service log *)

Definition logFile : jsstring := lit "/var/www/pm2/logs/pm2-service.log".
Definition MAX_LOG_LINES : nat := 5000.

Definition console_log (line : jsstring) : M unit :=
  modify (fun w => with_console (console w ++ [line]) w).

(** [new Date().toISOString()] *)
Definition toISOString : M jsstring := fun w => (Ok (now w), w).

Definition rotateLogs : M unit :=
  try_catch
    (ex <- existsSync logFile ;;
     if negb ex then ret tt
     else
       content <- readFileSync logFile ;;
       let lines := nonblank_lines content in
       if MAX_LOG_LINES <? length lines then
         let keepLines := slice_last MAX_LOG_LINES lines in
         writeFileSync logFile (join_nl keepLines ++ [NL]) ;;;
         t <- toISOString ;;
         console_log (lit "[" ++ t ++ lit "] Log rotated: kept last 5000 lines")
       else ret tt)
    (fun error => console_log (lit "Error rotating logs: " ++ error)).

Definition log (msg : jsstring) : M unit :=
  t <- toISOString ;;
  let full := lit "[" ++ t ++ lit "] " ++ msg in
  console_log full ;;;
  rotateLogs ;;;
  appendFileSync logFile (full ++ [NL]).

(** *** Process Directory *)

Definition PM2_LOG_DIR (w : World) : jsstring :=
  match HOME w with
  | Some h => if truthy_str h then h ++ lit "/.pm2/logs"
              else lit "/root/.pm2/logs"
  | None => lit "/root/.pm2/logs"
  end.

Definition log_dir : M jsstring := fun w => (Ok (PM2_LOG_DIR w), w).

(** [JSON.parse(text)] *)
Definition parse (text : jsstring) : M jsval := fun w => (JSON_parse w text, w).

(** [exec(cmd)]: the command line is handed to the supervisor; a failing
    command rejects with its message. *)
Definition execAsync (cmd : jsstring) : M (jsstring * jsstring) :=
  fun w =>
    let w' := with_execd (execd w ++ [cmd]) w in
    match supervisor w (length (execd w)) cmd with
    | ExecOk out err => (Ok (out, err), w')
    | ExecFail m => (Throw m, w')
    end.

(** The object built for one entry of [pm2 jlist] by [getPM2Processes]. *)
Definition summary (proc : jsval) : Res jsval :=
  (name <-? get_prop proc "name" ;;
   env1 <-? get_prop proc "pm2_env" ;;
   status <-? get_prop_opt env1 "status" ;;
   env2 <-? get_prop proc "pm2_env" ;;
   uptime <-? get_prop_opt env2 "pm_uptime" ;;
   monit1 <-? get_prop proc "monit" ;;
   memory <-? get_prop_opt monit1 "memory" ;;
   monit2 <-? get_prop proc "monit" ;;
   cpu <-? get_prop_opt monit2 "cpu" ;;
   pid <-? get_prop proc "pid" ;;
   env3 <-? get_prop proc "pm2_env" ;;
   restarts <-? get_prop_opt env3 "restart_time" ;;
   env4 <-? get_prop proc "pm2_env" ;;
   mode <-? get_prop_opt env4 "exec_mode" ;;
   Ok (VObj [("name", name);
             ("status", js_or status (VStr (lit "unknown")));
             ("uptime", js_or uptime (VNum 0));
             ("memory", js_or memory (VNum 0));
             ("cpu", js_or cpu (VNum 0));
             ("pid", pid);
             ("restarts", js_or restarts (VNum 0));
             ("mode", js_or mode (VStr (lit "unknown")))]))%res.

Definition getPM2Processes : M jsval :=
  try_catch
    (r <- execAsync (lit "pm2 jlist") ;;
     processes <- parse (fst r) ;;
     l <- lift (array_of processes "map") ;;
     res <- lift (js_map summary l) ;;
     ret (VArr res))
    (fun error =>
       log (lit "Error getting PM2 processes: " ++ error) ;;;
       ret (VArr [])).

(** The object [getPM2Process] returns for a process that exists. *)
Record ProcessDetail := mkDetail {
  p_name : jsval;
  p_status : jsval;
  p_uptime : jsval;
  p_memory : jsval;
  p_cpu : jsval;
  p_pid : jsval;
  p_restarts : jsval;
  p_mode : jsval;
  p_script : jsval;
  error_log : jsstring;
  out_log : jsstring
}.

Definition detail (dir : jsstring) (process : jsval) (name : jsstring)
  : Res ProcessDetail :=
  (pname <-? get_prop process "name" ;;
   env1 <-? get_prop process "pm2_env" ;;
   status <-? get_prop_opt env1 "status" ;;
   env2 <-? get_prop process "pm2_env" ;;
   uptime <-? get_prop_opt env2 "pm_uptime" ;;
   monit1 <-? get_prop process "monit" ;;
   memory <-? get_prop_opt monit1 "memory" ;;
   monit2 <-? get_prop process "monit" ;;
   cpu <-? get_prop_opt monit2 "cpu" ;;
   pid <-? get_prop process "pid" ;;
   env3 <-? get_prop process "pm2_env" ;;
   restarts <-? get_prop_opt env3 "restart_time" ;;
   env4 <-? get_prop process "pm2_env" ;;
   mode <-? get_prop_opt env4 "exec_mode" ;;
   env5 <-? get_prop process "pm2_env" ;;
   script <-? get_prop_opt env5 "pm_exec_path" ;;
   Ok (mkDetail pname
         (js_or status (VStr (lit "unknown")))
         (js_or uptime (VNum 0))
         (js_or memory (VNum 0))
         (js_or cpu (VNum 0))
         pid
         (js_or restarts (VNum 0))
         (js_or mode (VStr (lit "unknown")))
         (js_or script (VStr []))
         (dir ++ lit "/" ++ name ++ lit "-error.log")
         (dir ++ lit "/" ++ name ++ lit "-out.log")))%res.

(** [getPM2Process]: [None] is the [null] result. *)
Definition getPM2Process (name : jsstring) : M (option ProcessDetail) :=
  try_catch
    (r <- execAsync (lit "pm2 jlist") ;;
     processes <- parse (fst r) ;;
     l <- lift (array_of processes "find") ;;
     process <- lift (js_find
                        (fun p => (n <-? get_prop p "name" ;;
                                   Ok (strict_eq_str n name))%res) l) ;;
     if negb (truthy process) then ret None
     else
       dir <- log_dir ;;
       d <- lift (detail dir process name) ;;
       ret (Some d))
    (fun error =>
       log (lit "Error getting PM2 process " ++ name ++ lit ": " ++ error) ;;;
       ret None).

(** *** Process Control *)

Record Result := mkResult {
  success : bool;
  message : jsstring
}.

Definition restartPM2Process (name : jsstring) : M Result :=
  try_catch
    (process <- getPM2Process name ;;
     match process with
     | None => ret (mkResult false (lit "Process " ++ name ++ lit " not found"))
     | Some _ =>
         log (lit "Restarting PM2 process: " ++ name) ;;;
         r <- execAsync (lit "pm2 restart " ++ name) ;;
         log (lit "PM2 restart output for " ++ name ++ lit ": " ++ fst r) ;;;
         (if truthy_str (snd r)
          then log (lit "PM2 restart stderr for " ++ name ++ lit ": " ++ snd r)
          else ret tt) ;;;
         ret (mkResult true
                (lit "Process " ++ name ++ lit " restarted successfully"))
     end)
    (fun error =>
       log (lit "Error restarting PM2 process " ++ name ++ lit ": " ++ error) ;;;
       ret (mkResult false
              (lit "Failed to restart " ++ name ++ lit ": " ++ error))).

Definition stopPM2Process (name : jsstring) : M Result :=
  try_catch
    (process <- getPM2Process name ;;
     match process with
     | None => ret (mkResult false (lit "Process " ++ name ++ lit " not found"))
     | Some _ =>
         log (lit "Stopping PM2 process: " ++ name) ;;;
         r <- execAsync (lit "pm2 stop " ++ name) ;;
         log (lit "PM2 stop output for " ++ name ++ lit ": " ++ fst r) ;;;
         (if truthy_str (snd r)
          then log (lit "PM2 stop stderr for " ++ name ++ lit ": " ++ snd r)
          else ret tt) ;;;
         ret (mkResult true
                (lit "Process " ++ name ++ lit " stopped successfully"))
     end)
    (fun error =>
       log (lit "Error stopping PM2 process " ++ name ++ lit ": " ++ error) ;;;
       ret (mkResult false
              (lit "Failed to stop " ++ name ++ lit ": " ++ error))).

Definition startPM2Process (name : jsstring) : M Result :=
  try_catch
    (log (lit "Starting PM2 process: " ++ name) ;;;
     r <- execAsync (lit "pm2 start " ++ name) ;;
     log (lit "PM2 start output for " ++ name ++ lit ": " ++ fst r) ;;;
     (if truthy_str (snd r)
      then log (lit "PM2 start stderr for " ++ name ++ lit ": " ++ snd r)
      else ret tt) ;;;
     ret (mkResult true (lit "Process " ++ name ++ lit " started successfully")))
    (fun error =>
       log (lit "Error starting PM2 process " ++ name ++ lit ": " ++ error) ;;;
       ret (mkResult false
              (lit "Failed to start " ++ name ++ lit ": " ++ error))).

(** *** HTTP handlers

    A handler is taken after routing: it receives the service name cut out
    of the path, and yields the status code and the object handed to
    [sendJSON]. *)

Record Response := mkResponse {
  statusCode : Z;
  body : jsval
}.

Definition sendJSON (code : Z) (data : jsval) : M Response :=
  ret (mkResponse code data).

Definition str (s : string) : jsval := VStr (lit s).

(** One element of [outLogs] or [errorLogs]. *)
Definition log_entry (c : Channel) (line : jsstring) : jsval :=
  VObj [("type", VStr (channel_name c));
        ("message", VStr line);
        ("timestamp", VNull)].

(** [let logs = []; if (fs.existsSync(path)) { try { logs = ... } catch ... }] *)
Definition read_log_entries (c : Channel) (path : jsstring) (what : string)
  : M (list jsval) :=
  ex <- existsSync path ;;
  if ex then
    try_catch
      (text <- readFileSync path ;;
       ret (map (log_entry c) (nonblank_lines text)))
      (fun error =>
         log (lit "Error reading " ++ lit what ++ lit " log: " ++ error) ;;;
         ret [])
  else ret [].

Definition len {A} (l : list A) : jsval := VNum (Z.of_nat (length l)).

(** [GET /pm2/[name]/logs] *)
Definition get_logs (serviceName : jsstring) : M Response :=
  if negb (truthy_str serviceName) then
    sendJSON 400 (VObj [("status", str "error");
                        ("message", str "Service name is required")])
  else
    try_catch
      (process <- getPM2Process serviceName ;;
       match process with
       | None =>
           sendJSON 404
             (VObj [("status", str "error");
                    ("message",
                     VStr (lit "Service " ++ serviceName ++ lit " not found"))])
       | Some process =>
           let outLogPath := out_log process in
           let errorLogPath := error_log process in
           outLogs <- read_log_entries COut outLogPath "out" ;;
           errorLogs <- read_log_entries CError errorLogPath "error" ;;
           let allLogs := rev (outLogs ++ errorLogs) in
           sendJSON 200
             (VObj [("status", str "success");
                    ("service", VStr serviceName);
                    ("logs", VArr (slice_first 1000 allLogs));
                    ("totalLines", len allLogs);
                    ("outLogLines", len outLogs);
                    ("errorLogLines", len errorLogs)])
       end)
      (fun error =>
         log (lit "Error getting logs for " ++ serviceName ++ lit ": " ++ error) ;;;
         sendJSON 500 (VObj [("status", str "error");
                             ("message", str "Failed to get logs");
                             ("error", VStr error)])).

(** [POST /pm2/[name]/restart] *)
Definition post_restart (serviceName : jsstring) : M Response :=
  if negb (truthy_str serviceName) then
    sendJSON 400 (VObj [("status", str "error");
                        ("message", str "Service name is required")])
  else
    try_catch
      (result <- restartPM2Process serviceName ;;
       if success result then
         sendJSON 200 (VObj [("status", str "success");
                             ("message", VStr (message result));
                             ("service", VStr serviceName)])
       else
         sendJSON 404 (VObj [("status", str "error");
                             ("message", VStr (message result))]))
      (fun error =>
         log (lit "Error restarting PM2 process " ++ serviceName
                ++ lit ": " ++ error) ;;;
         sendJSON 500 (VObj [("status", str "error");
                             ("message", str "Failed to restart service");
                             ("error", VStr error)])).

(** The endpoint table of [GET /pm2]. *)
Definition endpoints : jsval :=
  VObj [("GET /pm2", str "List all PM2 services");
        ("GET /pm2/[name]", str "Get specific service details");
        ("POST /pm2/[name]/restart", str "Restart a service");
        ("POST /pm2/[name]/stop", str "Stop a service");
        ("POST /pm2/[name]/start", str "Start a service");
        ("WebSocket /pm2/[name]", str "Stream logs in real-time")].

(** [GET /pm2] *)
Definition get_list : M Response :=
  try_catch
    (services <- getPM2Processes ;;
     sendJSON 200 (VObj [("status", str "success");
                         ("message", str "PM2 management service is running");
                         ("services", services);
                         ("endpoints", endpoints)]))
    (fun error =>
       log (lit "Error listing PM2 processes: " ++ error) ;;;
       sendJSON 500 (VObj [("status", str "error");
                           ("message", str "Failed to list PM2 processes");
                           ("error", VStr error)])).

(** The object [getPM2Process] returns, as handed to [JSON.stringify]. *)
Definition detail_object (d : ProcessDetail) : jsval :=
  VObj [("name", p_name d);
        ("status", p_status d);
        ("uptime", p_uptime d);
        ("memory", p_memory d);
        ("cpu", p_cpu d);
        ("pid", p_pid d);
        ("restarts", p_restarts d);
        ("mode", p_mode d);
        ("script", p_script d);
        ("error_log", VStr (error_log d));
        ("out_log", VStr (out_log d))].

(** [GET /pm2/[name]] *)
Definition get_detail (serviceName : jsstring) : M Response :=
  if negb (truthy_str serviceName) then
    sendJSON 400 (VObj [("status", str "error");
                        ("message", str "Service name is required")])
  else
    try_catch
      (process <- getPM2Process serviceName ;;
       match process with
       | None =>
           sendJSON 404
             (VObj [("status", str "error");
                    ("message",
                     VStr (lit "Service " ++ serviceName ++ lit " not found"))])
       | Some d =>
           sendJSON 200 (VObj [("status", str "success");
                               ("service", detail_object d)])
       end)
      (fun error =>
         log (lit "Error getting PM2 process " ++ serviceName ++ lit ": " ++ error) ;;;
         sendJSON 500 (VObj [("status", str "error");
                             ("message", str "Failed to get service details");
                             ("error", VStr error)])).

(** [POST /pm2/[name]/stop] *)
Definition post_stop (serviceName : jsstring) : M Response :=
  if negb (truthy_str serviceName) then
    sendJSON 400 (VObj [("status", str "error");
                        ("message", str "Service name is required")])
  else
    try_catch
      (result <- stopPM2Process serviceName ;;
       if success result then
         sendJSON 200 (VObj [("status", str "success");
                             ("message", VStr (message result));
                             ("service", VStr serviceName)])
       else
         sendJSON 404 (VObj [("status", str "error");
                             ("message", VStr (message result))]))
      (fun error =>
         log (lit "Error stopping PM2 process " ++ serviceName
                ++ lit ": " ++ error) ;;;
         sendJSON 500 (VObj [("status", str "error");
                             ("message", str "Failed to stop service");
                             ("error", VStr error)])).

(** [POST /pm2/[name]/start] *)
Definition post_start (serviceName : jsstring) : M Response :=
  if negb (truthy_str serviceName) then
    sendJSON 400 (VObj [("status", str "error");
                        ("message", str "Service name is required")])
  else
    try_catch
      (result <- startPM2Process serviceName ;;
       if success result then
         sendJSON 200 (VObj [("status", str "success");
                             ("message", VStr (message result));
                             ("service", VStr serviceName)])
       else
         sendJSON 500 (VObj [("status", str "error");
                             ("message", VStr (message result))]))
      (fun error =>
         log (lit "Error starting PM2 process " ++ serviceName
                ++ lit ": " ++ error) ;;;
         sendJSON 500 (VObj [("status", str "error");
                             ("message", str "Failed to start service");
                             ("error", VStr error)])).

(** *** Writes that are refused

    [fs.writeFileSync] and [fs.appendFileSync] throw when the operating
    system refuses the write: the file may not be written (EACCES), the
    disk is full (ENOSPC), no descriptor is left (EMFILE).  The
    definitions above are the service on a disk that takes every write.
    Here are the service log, the Process Directory, Process Control and
    their handlers on a disk that may refuse: [write_error p data] is
    the message of the error that answers the write of [data] to [p], if
    any.  A refused write leaves the file as it was. *)

Module Faulty.
Section Disk.
Variable write_error : jsstring -> jsstring -> option jsstring.

Definition writeFileSync (p data : jsstring) : M unit :=
  fun w => match write_error p data with
           | Some e => (Throw e, w)
           | None => writeFileSync p data w
           end.

Definition appendFileSync (p data : jsstring) : M unit :=
  fun w => match write_error p data with
           | Some e => (Throw e, w)
           | None => appendFileSync p data w
           end.

Definition rotateLogs : M unit :=
  try_catch
    (ex <- existsSync logFile ;;
     if negb ex then ret tt
     else
       content <- readFileSync logFile ;;
       let lines := nonblank_lines content in
       if MAX_LOG_LINES <? length lines then
         let keepLines := slice_last MAX_LOG_LINES lines in
         writeFileSync logFile (join_nl keepLines ++ [NL]) ;;;
         t <- toISOString ;;
         console_log (lit "[" ++ t ++ lit "] Log rotated: kept last 5000 lines")
       else ret tt)
    (fun error => console_log (lit "Error rotating logs: " ++ error)).

Definition log (msg : jsstring) : M unit :=
  t <- toISOString ;;
  let full := lit "[" ++ t ++ lit "] " ++ msg in
  console_log full ;;;
  rotateLogs ;;;
  appendFileSync logFile (full ++ [NL]).

Definition getPM2Processes : M jsval :=
  try_catch
    (r <- execAsync (lit "pm2 jlist") ;;
     processes <- parse (fst r) ;;
     l <- lift (array_of processes "map") ;;
     res <- lift (js_map summary l) ;;
     ret (VArr res))
    (fun error =>
       log (lit "Error getting PM2 processes: " ++ error) ;;;
       ret (VArr [])).

(** [GET /pm2] *)
Definition get_list : M Response :=
  try_catch
    (services <- getPM2Processes ;;
     sendJSON 200 (VObj [("status", str "success");
                         ("message", str "PM2 management service is running");
                         ("services", services);
                         ("endpoints", endpoints)]))
    (fun error =>
       log (lit "Error listing PM2 processes: " ++ error) ;;;
       sendJSON 500 (VObj [("status", str "error");
                           ("message", str "Failed to list PM2 processes");
                           ("error", VStr error)])).

Definition getPM2Process (name : jsstring) : M (option ProcessDetail) :=
  try_catch
    (r <- execAsync (lit "pm2 jlist") ;;
     processes <- parse (fst r) ;;
     l <- lift (array_of processes "find") ;;
     process <- lift (js_find
                        (fun p => (n <-? get_prop p "name" ;;
                                   Ok (strict_eq_str n name))%res) l) ;;
     if negb (truthy process) then ret None
     else
       dir <- log_dir ;;
       d <- lift (detail dir process name) ;;
       ret (Some d))
    (fun error =>
       log (lit "Error getting PM2 process " ++ name ++ lit ": " ++ error) ;;;
       ret None).

Definition restartPM2Process (name : jsstring) : M Result :=
  try_catch
    (process <- getPM2Process name ;;
     match process with
     | None => ret (mkResult false (lit "Process " ++ name ++ lit " not found"))
     | Some _ =>
         log (lit "Restarting PM2 process: " ++ name) ;;;
         r <- execAsync (lit "pm2 restart " ++ name) ;;
         log (lit "PM2 restart output for " ++ name ++ lit ": " ++ fst r) ;;;
         (if truthy_str (snd r)
          then log (lit "PM2 restart stderr for " ++ name ++ lit ": " ++ snd r)
          else ret tt) ;;;
         ret (mkResult true
                (lit "Process " ++ name ++ lit " restarted successfully"))
     end)
    (fun error =>
       log (lit "Error restarting PM2 process " ++ name ++ lit ": " ++ error) ;;;
       ret (mkResult false
              (lit "Failed to restart " ++ name ++ lit ": " ++ error))).

Definition stopPM2Process (name : jsstring) : M Result :=
  try_catch
    (process <- getPM2Process name ;;
     match process with
     | None => ret (mkResult false (lit "Process " ++ name ++ lit " not found"))
     | Some _ =>
         log (lit "Stopping PM2 process: " ++ name) ;;;
         r <- execAsync (lit "pm2 stop " ++ name) ;;
         log (lit "PM2 stop output for " ++ name ++ lit ": " ++ fst r) ;;;
         (if truthy_str (snd r)
          then log (lit "PM2 stop stderr for " ++ name ++ lit ": " ++ snd r)
          else ret tt) ;;;
         ret (mkResult true
                (lit "Process " ++ name ++ lit " stopped successfully"))
     end)
    (fun error =>
       log (lit "Error stopping PM2 process " ++ name ++ lit ": " ++ error) ;;;
       ret (mkResult false
              (lit "Failed to stop " ++ name ++ lit ": " ++ error))).

Definition startPM2Process (name : jsstring) : M Result :=
  try_catch
    (log (lit "Starting PM2 process: " ++ name) ;;;
     r <- execAsync (lit "pm2 start " ++ name) ;;
     log (lit "PM2 start output for " ++ name ++ lit ": " ++ fst r) ;;;
     (if truthy_str (snd r)
      then log (lit "PM2 start stderr for " ++ name ++ lit ": " ++ snd r)
      else ret tt) ;;;
     ret (mkResult true (lit "Process " ++ name ++ lit " started successfully")))
    (fun error =>
       log (lit "Error starting PM2 process " ++ name ++ lit ": " ++ error) ;;;
       ret (mkResult false
              (lit "Failed to start " ++ name ++ lit ": " ++ error))).

(** [GET /pm2/[name]] *)
Definition get_detail (serviceName : jsstring) : M Response :=
  if negb (truthy_str serviceName) then
    sendJSON 400 (VObj [("status", str "error");
                        ("message", str "Service name is required")])
  else
    try_catch
      (process <- getPM2Process serviceName ;;
       match process with
       | None =>
           sendJSON 404
             (VObj [("status", str "error");
                    ("message",
                     VStr (lit "Service " ++ serviceName ++ lit " not found"))])
       | Some d =>
           sendJSON 200 (VObj [("status", str "success");
                               ("service", detail_object d)])
       end)
      (fun error =>
         log (lit "Error getting PM2 process " ++ serviceName ++ lit ": " ++ error) ;;;
         sendJSON 500 (VObj [("status", str "error");
                             ("message", str "Failed to get service details");
                             ("error", VStr error)])).

Definition read_log_entries (c : Channel) (path : jsstring) (what : string)
  : M (list jsval) :=
  ex <- existsSync path ;;
  if ex then
    try_catch
      (text <- readFileSync path ;;
       ret (map (log_entry c) (nonblank_lines text)))
      (fun error =>
         log (lit "Error reading " ++ lit what ++ lit " log: " ++ error) ;;;
         ret [])
  else ret [].

(** [GET /pm2/[name]/logs] *)
Definition get_logs (serviceName : jsstring) : M Response :=
  if negb (truthy_str serviceName) then
    sendJSON 400 (VObj [("status", str "error");
                        ("message", str "Service name is required")])
  else
    try_catch
      (process <- getPM2Process serviceName ;;
       match process with
       | None =>
           sendJSON 404
             (VObj [("status", str "error");
                    ("message",
                     VStr (lit "Service " ++ serviceName ++ lit " not found"))])
       | Some process =>
           let outLogPath := out_log process in
           let errorLogPath := error_log process in
           outLogs <- read_log_entries COut outLogPath "out" ;;
           errorLogs <- read_log_entries CError errorLogPath "error" ;;
           let allLogs := rev (outLogs ++ errorLogs) in
           sendJSON 200
             (VObj [("status", str "success");
                    ("service", VStr serviceName);
                    ("logs", VArr (slice_first 1000 allLogs));
                    ("totalLines", len allLogs);
                    ("outLogLines", len outLogs);
                    ("errorLogLines", len errorLogs)])
       end)
      (fun error =>
         log (lit "Error getting logs for " ++ serviceName ++ lit ": " ++ error) ;;;
         sendJSON 500 (VObj [("status", str "error");
                             ("message", str "Failed to get logs");
                             ("error", VStr error)])).

(** [POST /pm2/[name]/restart] *)
Definition post_restart (serviceName : jsstring) : M Response :=
  if negb (truthy_str serviceName) then
    sendJSON 400 (VObj [("status", str "error");
                        ("message", str "Service name is required")])
  else
    try_catch
      (result <- restartPM2Process serviceName ;;
       if success result then
         sendJSON 200 (VObj [("status", str "success");
                             ("message", VStr (message result));
                             ("service", VStr serviceName)])
       else
         sendJSON 404 (VObj [("status", str "error");
                             ("message", VStr (message result))]))
      (fun error =>
         log (lit "Error restarting PM2 process " ++ serviceName
                ++ lit ": " ++ error) ;;;
         sendJSON 500 (VObj [("status", str "error");
                             ("message", str "Failed to restart service");
                             ("error", VStr error)])).

(** [POST /pm2/[name]/stop] *)
Definition post_stop (serviceName : jsstring) : M Response :=
  if negb (truthy_str serviceName) then
    sendJSON 400 (VObj [("status", str "error");
                        ("message", str "Service name is required")])
  else
    try_catch
      (result <- stopPM2Process serviceName ;;
       if success result then
         sendJSON 200 (VObj [("status", str "success");
                             ("message", VStr (message result));
                             ("service", VStr serviceName)])
       else
         sendJSON 404 (VObj [("status", str "error");
                             ("message", VStr (message result))]))
      (fun error =>
         log (lit "Error stopping PM2 process " ++ serviceName
                ++ lit ": " ++ error) ;;;
         sendJSON 500 (VObj [("status", str "error");
                             ("message", str "Failed to stop service");
                             ("error", VStr error)])).

(** [POST /pm2/[name]/start] *)
Definition post_start (serviceName : jsstring) : M Response :=
  if negb (truthy_str serviceName) then
    sendJSON 400 (VObj [("status", str "error");
                        ("message", str "Service name is required")])
  else
    try_catch
      (result <- startPM2Process serviceName ;;
       if success result then
         sendJSON 200 (VObj [("status", str "success");
                             ("message", VStr (message result));
                             ("service", VStr serviceName)])
       else
         sendJSON 500 (VObj [("status", str "error");
                             ("message", VStr (message result))]))
      (fun error =>
         log (lit "Error starting PM2 process " ++ serviceName
                ++ lit ": " ++ error) ;;;
         sendJSON 500 (VObj [("status", str "error");
                             ("message", str "Failed to start service");
                             ("error", VStr error)])).

End Disk.
End Faulty.

(** A disk that takes every write. *)
Definition no_write_error (p data : jsstring) : option jsstring := None.

(** The service log takes every write. *)
Definition log_taken (write_error : jsstring -> jsstring -> option jsstring)
  : Prop :=
  forall data, write_error logFile data = None.

(** No write to the service log is taken. *)
Definition log_refused (write_error : jsstring -> jsstring -> option jsstring)
  : Prop :=
  forall data, is_Some (write_error logFile data).

(** A service log that may not be written, and nothing else refused. *)
Definition log_read_only (p data : jsstring) : option jsstring :=
  if bool_decide (p = logFile)
  then Some (lit "EACCES: permission denied, open '" ++ logFile ++ lit "'")
  else None.

(** *** Sockets *)

Definition CLOSED_SOCKET : WebSocket := mkWs 3 [] None false [] [].

Definition ws_get (ws : nat) : M WebSocket :=
  fun w => (Ok (default CLOSED_SOCKET (sockets w !! ws)), w).

Definition ws_update (ws : nat) (f : WebSocket -> WebSocket) : M unit :=
  modify (fun w => with_sockets (alter f ws (sockets w)) w).

(** [ws.send(JSON.stringify(msg))]: delivered when the socket is OPEN,
    dropped without an exception once it is closing or closed. *)
Definition ws_send (ws : nat) (msg : jsval) : M unit :=
  ws_update ws (fun s =>
    if N.eqb (readyState s) 1
    then mkWs (readyState s) (sent s ++ [msg]) (closed_with s)
              (on_message s) (on_close s) (on_error s)
    else s).

(** [ws.close(code, reason)] *)
Definition ws_close (ws : nat) (code : N) (reason : jsstring) : M unit :=
  ws_update ws (fun s =>
    if N.eqb (readyState s) 1
    then mkWs 2 (sent s) (Some (code, reason))
              (on_message s) (on_close s) (on_error s)
    else s).

Definition ws_set_state (ws : nat) (st : N) : M unit :=
  ws_update ws (fun s =>
    mkWs st (sent s) (closed_with s) (on_message s) (on_close s) (on_error s)).

(** [ws.on('close', l)], [ws.on('error', l)], [ws.on('message', ...)] *)
Definition ws_on_close (ws : nat) (l : Listener) : M unit :=
  ws_update ws (fun s =>
    mkWs (readyState s) (sent s) (closed_with s) (on_message s)
         (on_close s ++ [l]) (on_error s)).

Definition ws_on_error (ws : nat) (l : Listener) : M unit :=
  ws_update ws (fun s =>
    mkWs (readyState s) (sent s) (closed_with s) (on_message s)
         (on_close s) (on_error s ++ [l])).

Definition ws_on_message (ws : nat) : M unit :=
  ws_update ws (fun s =>
    mkWs (readyState s) (sent s) (closed_with s) true
         (on_close s) (on_error s)).

(** [arr.forEach(f)] *)
Fixpoint forEach {A} (f : A -> M unit) (l : list A) : M unit :=
  match l with
  | [] => ret tt
  | x :: rest => f x ;;; forEach f rest
  end.

(** *** streamLogs *)

Definition log_message (processName : jsstring) (type : Channel)
    (line t : jsstring) : jsval :=
  VObj [("type", str "log");
        ("process", VStr processName);
        ("logType", VStr (channel_name type));
        ("message", VStr line);
        ("timestamp", VStr t)].

Definition sendLog (ws : nat) (processName : jsstring)
    (line : jsstring) (type : Channel) : M unit :=
  s <- ws_get ws ;;
  if N.eqb (readyState s) 1 then
    try_catch
      (t <- toISOString ;;
       ws_send ws (log_message processName type line t))
      (fun error => log (lit "Error sending log to WebSocket: " ++ error))
  else ret tt.

Definition readExistingLogs (ws : nat) (processName : jsstring)
    (filePath : jsstring) (type : Channel) : M unit :=
  try_catch
    (ex <- existsSync filePath ;;
     if ex then
       content <- readFileSync filePath ;;
       let lines := nonblank_lines content in
       let recentLines := slice_last 100 lines in
       forEach (fun line => sendLog ws processName line type) recentLines
     else ret tt)
    (fun error => log (lit "Error reading existing logs: " ++ error)).

(** [spawn('tail', ['-f', '-n', '0', path])] with the stdout and stderr
    listeners of [streamLogs]: the new process opens the file now at
    [path] and starts at its end. *)
Definition spawn_tail (path : jsstring) (ws : nat) (processName : jsstring)
    (type : Channel) : M nat :=
  fun w =>
    let p := match fs w !! path with
             | Some f => mkTail path (Some (ino f)) (length (content f)) 0
                                ws processName type
             | None => mkTail path None 0 0 ws processName type
             end in
    (Ok (length (tails w)), with_tails (tails w ++ [p]) w).

(** [child.kill()] *)
Definition kill (h : nat) : M unit :=
  modify (fun w =>
    with_tails
      (alter (fun p => mkTail (t_path p) (t_open p) (t_pos p) (S (t_kills p))
                              (t_ws p) (t_process p) (t_channel p))
             h (tails w)) w).

Definition new_env : M nat :=
  fun w => (Ok (length (envs w)), with_envs (envs w ++ [mkEnv None []]) w).

Definition env_get (env : nat) : M StreamEnv :=
  fun w => (Ok (default (mkEnv None []) (envs w !! env)), w).

Definition set_tailProcess (env : nat) (h : nat) : M unit :=
  modify (fun w =>
    with_envs (alter (fun e => mkEnv (Some h) (watchers e)) env (envs w)) w).

Definition set_watchers (env : nat) (ws : list jsstring) : M unit :=
  modify (fun w =>
    with_envs (alter (fun e => mkEnv (tailProcess e) ws) env (envs w)) w).

Definition unwatchFile (path : jsstring) : M unit :=
  modify (fun w => with_unwatched (unwatched w ++ [path]) w).

Definition is_type (logType : jsstring) (t : string) : bool :=
  bool_decide (logType = lit t).

(** The two blocks of [startTailing]: the stdout tailer, kept in
    [tailProcess], and the stderr tailer, kept in a constant of its
    block. *)
Definition tail_out (env ws : nat) (processName logType outLogPath : jsstring)
  : M unit :=
  if is_type logType "both" || is_type logType "out" then
    ex <- existsSync outLogPath ;;
    if ex then
      readExistingLogs ws processName outLogPath COut ;;;
      h <- spawn_tail outLogPath ws processName COut ;;
      set_tailProcess env h
    else ret tt
  else ret tt.

Definition tail_error (ws : nat) (processName logType errorLogPath : jsstring)
  : M unit :=
  if is_type logType "both" || is_type logType "error" then
    ex <- existsSync errorLogPath ;;
    if ex then
      readExistingLogs ws processName errorLogPath CError ;;;
      errorTailProcess <- spawn_tail errorLogPath ws processName CError ;;
      ret tt
    else ret tt
  else ret tt.

Definition startTailing (env ws : nat) (processName logType : jsstring) : M unit :=
  dir <- log_dir ;;
  let outLogPath := dir ++ lit "/" ++ processName ++ lit "-out.log" in
  let errorLogPath := dir ++ lit "/" ++ processName ++ lit "-error.log" in
  tail_out env ws processName logType outLogPath ;;;
  tail_error ws processName logType errorLogPath.

(** The [cleanup] closure of the [streamLogs] call whose variables are
    [env]. *)
Definition cleanup (env : nat) : M unit :=
  e <- env_get env ;;
  (match tailProcess e with
   | Some h => kill h
   | None => ret tt
   end) ;;;
  forEach unwatchFile (watchers e) ;;;
  set_watchers env [].

(** [streamLogs] returns its [cleanup] closure. *)
Definition streamLogs (ws : nat) (processName logType : jsstring) : M nat :=
  env <- new_env ;;
  startTailing env ws processName logType ;;;
  ws_on_close ws (LCleanup env) ;;;
  ws_on_error ws (LCleanup env) ;;;
  ret env.

(** *** Connection Gateway *)

Definition new_socket : M nat :=
  fun w => (Ok (length (sockets w)),
            with_sockets (sockets w ++ [mkWs 1 [] None false [] []]) w).

Definition connected_message (processName logType : jsstring) : jsval :=
  VObj [("type", str "connected");
        ("message", VStr (lit "Connected to " ++ processName ++ lit " logs"));
        ("process", VStr processName);
        ("logType", VStr logType)].

Definition error_message (text : jsstring) : jsval :=
  VObj [("type", str "error"); ("message", VStr text)].

(** The callback given to [getPM2Process(processName).then]. *)
Definition connection_then (ws : nat) (processName logType : jsstring)
    (process : option ProcessDetail) : M unit :=
  match process with
  | None =>
      ws_send ws (error_message (lit "Process " ++ processName ++ lit " not found")) ;;;
      ws_close ws 1008 (lit "Process not found")
  | Some _ =>
      ws_send ws (connected_message processName logType) ;;;
      cleanup <- streamLogs ws processName logType ;;
      modify (fun w =>
        with_wsConnections (<[ws := (processName, cleanup)]> (wsConnections w)) w) ;;;
      ws_on_message ws ;;;
      ws_on_close ws (LGatewayClose processName) ;;;
      ws_on_error ws (LGatewayError processName)
  end.

(** The [wss.on('connection', ...)] listener, given the new socket.
    [qtype] is [query.type]; [client_gone] tells whether the client went
    away while the existence check was pending (its ['close'] then fired
    before any listener was registered). *)
Definition on_connection (ws : nat) (processName : jsstring)
    (qtype : option jsstring) (client_gone : bool) : M unit :=
  let logType := match qtype with
                 | Some t => if truthy_str t then t else lit "both"
                 | None => lit "both"
                 end in
  if negb (truthy_str processName) then
    ws_close ws 1008 (lit "Process name is required")
  else
    log (lit "WebSocket connection for PM2 process: " ++ processName
           ++ lit ", logType: " ++ logType) ;;;
    try_catch
      (process <- getPM2Process processName ;;
       (if client_gone then ws_set_state ws 3 else ret tt) ;;;
       connection_then ws processName logType process)
      (fun error =>
         log (lit "Error verifying process " ++ processName ++ lit ": " ++ error) ;;;
         ws_send ws (error_message (lit "Error verifying process: " ++ error)) ;;;
         ws_close ws 1011 (lit "Internal error")).

(** The body shared by the gateway's ['close'] and ['error'] listeners. *)
Definition gateway_cleanup (ws : nat) : M unit :=
  w <- get ;;
  (match wsConnections w !! ws with
   | Some (_, cleanup_env) => cleanup cleanup_env
   | None => ret tt
   end) ;;;
  modify (fun w => with_wsConnections (delete ws (wsConnections w)) w).

Definition run_listener (ws : nat) (error : jsstring) (l : Listener) : M unit :=
  match l with
  | LCleanup env => cleanup env
  | LGatewayClose processName =>
      log (lit "WebSocket disconnected for PM2 process: " ++ processName) ;;;
      gateway_cleanup ws
  | LGatewayError processName =>
      log (lit "WebSocket error for " ++ processName ++ lit ": " ++ error) ;;;
      gateway_cleanup ws
  end.

(** The ['message'] listener: a pong for a ping, nothing otherwise. *)
Definition on_ws_message (ws : nat) (data : jsstring) : M unit :=
  try_catch
    (message <- parse data ;;
     type <- lift (get_prop message "type") ;;
     if strict_eq_str type (lit "ping")
     then ws_send ws (VObj [("type", str "pong")])
     else ret tt)
    (fun _ => ret tt).

(** The stdout ['data'] listener of tail process [p]. *)
Definition on_tail_data (p : TailProc) (data : jsstring) : M unit :=
  let lines := nonblank_lines data in
  forEach (fun line => sendLog (t_ws p) (t_process p) line (t_channel p)) lines.

(** The stderr ['data'] listener of tail process [p]. *)
Definition on_tail_stderr (p : TailProc) (data : jsstring) : M unit :=
  log (lit "Tail stderr for " ++ t_process p ++ lit ": " ++ data).

(** *** The environment

    What [tail -f] does between two wake-ups: it follows the descriptor it
    opened, not the name.  While the path still names that file it copies
    the bytes past its offset; when the file became shorter it reports the
    truncation on stderr and starts over from the beginning; when the path
    names another file, or none, the descriptor sees nothing new.

    What [tail] prints reaches the ['data'] listener through a pipe and
    a stream, which hand it over in chunks cut wherever they please: a
    wake-up comes with the sizes of the chunks, [cuts], and the listener
    runs once per chunk, in order.  (A cut inside a character of several
    bytes is not among them: the strings here hold code units.) *)

(** [data] cut into chunks of the sizes [cuts], what is left over being
    the last chunk. *)
Fixpoint chunks (cuts : list nat) (data : jsstring) : list jsstring :=
  match cuts with
  | [] => [data]
  | n :: rest => take n data :: chunks rest (drop n data)
  end.

Inductive TailOutput :=
| TailNothing
| TailBytes (data : jsstring)
| TailTruncated (data : jsstring).

Definition tail_read (files : gmap jsstring File) (p : TailProc) : TailOutput :=
  if negb (t_kills p =? 0) then TailNothing
  else
    match t_open p, files !! t_path p with
    | Some i, Some f =>
        if negb (N.eqb (ino f) i) then TailNothing
        else if t_pos p <? length (content f)
             then TailBytes (drop (t_pos p) (content f))
             else if length (content f) <? t_pos p
                  then TailTruncated (content f)
                  else TailNothing
    | _, _ => TailNothing
    end.

Definition tail_advance (files : gmap jsstring File) (p : TailProc) : TailProc :=
  if negb (t_kills p =? 0) then p
  else
    match t_open p, files !! t_path p with
    | Some i, Some f =>
        if N.eqb (ino f) i
        then mkTail (t_path p) (t_open p) (length (content f)) (t_kills p)
                    (t_ws p) (t_process p) (t_channel p)
        else p
    | _, _ => p
    end.

Definition tail_poll (h : nat) (cuts : list nat) : M unit :=
  w <- get ;;
  match tails w !! h with
  | None => ret tt
  | Some p =>
      modify (fun w => with_tails (alter (tail_advance (fs w)) h (tails w)) w) ;;;
      match tail_read (fs w) p with
      | TailNothing => ret tt
      | TailBytes data => forEach (on_tail_data p) (chunks cuts data)
      | TailTruncated data =>
          on_tail_stderr p (lit "tail: " ++ t_path p ++ lit ": file truncated" ++ [NL]) ;;;
          (if truthy_str data then forEach (on_tail_data p) (chunks cuts data)
           else ret tt)
      end
  end.

(** A new file takes the place of the one at [path] (rotation). *)
Definition replace_file (path data : jsstring) : M unit :=
  modify (fun w =>
    with_next_ino (N.succ (next_ino w))
      (with_fs (<[path := mkFile (next_ino w) true data]> (fs w)) w)).

Inductive Event :=
| Connection (processName : jsstring) (qtype : option jsstring) (client_gone : bool)
| WsClose (ws : nat)
| WsError (ws : nat) (error : jsstring)
| WsMessage (ws : nat) (data : jsstring)
| TailStdout (h : nat) (data : jsstring)
| TailStderr (h : nat) (data : jsstring)
| TailPoll (h : nat) (cuts : list nat)
| FileAppend (path data : jsstring)
| FileReplace (path data : jsstring)
| FileRemove (path : jsstring)
| Tick (t : jsstring).

(** One turn of the event loop. *)
Definition handle (e : Event) : M unit :=
  match e with
  | Connection processName qtype client_gone =>
      ws <- new_socket ;;
      on_connection ws processName qtype client_gone
  | WsClose ws =>
      s <- ws_get ws ;;
      if N.eqb (readyState s) 3 then ret tt
      else
        ws_set_state ws 3 ;;;
        forEach (run_listener ws []) (on_close s)
  | WsError ws error =>
      s <- ws_get ws ;;
      if N.eqb (readyState s) 3 then ret tt
      else
        ws_set_state ws 2 ;;;
        forEach (run_listener ws error) (on_error s)
  | WsMessage ws data =>
      s <- ws_get ws ;;
      if on_message s then on_ws_message ws data else ret tt
  | TailStdout h data =>
      w <- get ;;
      match tails w !! h with
      | Some p => on_tail_data p data
      | None => ret tt
      end
  | TailStderr h data =>
      w <- get ;;
      match tails w !! h with
      | Some p => on_tail_stderr p data
      | None => ret tt
      end
  | TailPoll h cuts => tail_poll h cuts
  | FileAppend path data => appendFileSync path data
  | FileReplace path data => replace_file path data
  | FileRemove path => modify (fun w => with_fs (delete path (fs w)) w)
  | Tick t => modify (with_now t)
  end.

Fixpoint handle_all (es : list Event) (w : World) : World :=
  match es with
  | [] => w
  | e :: rest => handle_all rest (snd (handle e w))
  end.

(** ** Sample worlds

    A supervisor that knows one process, [api], and answers every command;
    [JSON.parse] on the one text that supervisor prints. *)

Definition sample_jlist : jsval :=
  VArr [VObj [("name", str "api");
              ("pid", VNum 42);
              ("pm2_env", VObj [("status", str "online")])]].

Definition sample_parse (text : jsstring) : Res jsval :=
  if bool_decide (text = lit "[api]") then Ok sample_jlist
  else Throw (lit "Unexpected token in JSON").

Definition sample_supervisor (n : nat) (cmd : jsstring) : ExecResult :=
  if bool_decide (cmd = lit "pm2 jlist") then ExecOk (lit "[api]") []
  else ExecOk (lit "done") [].

Definition down_supervisor (n : nat) (cmd : jsstring) : ExecResult :=
  ExecFail (lit "Command failed: " ++ cmd).

Definition api_out : jsstring := lit "/home/u/.pm2/logs/api-out.log".
Definition api_error : jsstring := lit "/home/u/.pm2/logs/api-error.log".

Definition world_with (sup : nat -> jsstring -> ExecResult)
    (files : list (jsstring * File)) : World :=
  mkWorld (Some (lit "/home/u")) sample_parse sup []
          (list_to_map files) 100 (lit "T0") [] [] [] [] ∅ [].

Definition sample_world (files : list (jsstring * File)) : World :=
  world_with sample_supervisor files.


Definition message_text (msg : jsval) : jsstring :=
  match msg with
  | VObj props => match assoc "message" props with
                  | Some (VStr t) => t
                  | _ => []
                  end
  | _ => []
  end.

Definition sent_to (ws : nat) (w : World) : list jsval :=
  sent (default CLOSED_SOCKET (sockets w !! ws)).


(** ** Vocabulary of the properties *)

(** A line holds text when some unit of it is not white space. *)
Definition has_text (line : jsstring) : bool :=
  existsb (fun c => negb (is_ws c)) line.

(** A well-formed line: no terminator inside, and some text. *)
Definition well_formed (line : jsstring) : Prop :=
  (NL ∉ line) ∧ has_text line = true.

(** The bytes of a sequence of complete lines. *)
Definition lines_text (ls : list jsstring) : jsstring :=
  concat (map (fun l => l ++ [NL]) ls).

(** [w'] is [w] after the service wrote to its console and to its own
    log file, and nothing else. *)
Record logged (w w' : World) : Prop := mkLogged {
  lg_HOME : HOME w' = HOME w;
  lg_parse : JSON_parse w' = JSON_parse w;
  lg_supervisor : supervisor w' = supervisor w;
  lg_execd : execd w' = execd w;
  lg_now : now w' = now w;
  lg_tails : tails w' = tails w;
  lg_envs : envs w' = envs w;
  lg_sockets : sockets w' = sockets w;
  lg_conns : wsConnections w' = wsConnections w;
  lg_unwatched : unwatched w' = unwatched w;
  lg_fs : forall p, p <> logFile -> fs w' !! p = fs w !! p
}.

(** The line [log(msg)] prints in world [w]. *)
Definition log_line (w : World) (msg : jsstring) : jsstring :=
  lit "[" ++ now w ++ lit "] " ++ msg.

(** [w] after one more command was handed to the supervisor. *)
Definition asked (cmd : jsstring) (w : World) : World :=
  with_execd (execd w ++ [cmd]) w.

(** The log files of a process. *)
Definition outLogPath (w : World) (name : jsstring) : jsstring :=
  PM2_LOG_DIR w ++ lit "/" ++ name ++ lit "-out.log".

Definition errorLogPath (w : World) (name : jsstring) : jsstring :=
  PM2_LOG_DIR w ++ lit "/" ++ name ++ lit "-error.log".

(** The lines with text of the file at [path], none when the file is
    missing or may not be read. *)
Definition text_lines (w : World) (path : jsstring) : list jsstring :=
  match fs w !! path with
  | Some f => if readable f then List.filter has_text (split NL (content f))
              else []
  | None => []
  end.

(** [v.k] for a property [k] of an object [v]. *)
Definition field (k : string) (v : jsval) : jsval :=
  match v with
  | VObj props => default VUndef (assoc k props)
  | _ => VUndef
  end.

(** The names of the properties of an object, in order. *)
Definition keys (v : jsval) : list string :=
  match v with
  | VObj props => map fst props
  | _ => []
  end.

(** The supervisor query of [getPM2Processes] fails with message [e] in
    [w]: the command fails, or what it prints is not JSON. *)
Definition query_failure (w : World) (e : jsstring) : Prop :=
  match supervisor w (length (execd w)) (lit "pm2 jlist") with
  | ExecFail m => e = m
  | ExecOk out _ => JSON_parse w out = Throw e
  end.

(** The object a successful [GET /pm2/[name]/logs] sends, from the lines
    of the two files. *)
Definition logs_body (name : jsstring) (outs errs : list jsstring) : jsval :=
  let outLogs := map (log_entry COut) outs in
  let errorLogs := map (log_entry CError) errs in
  VObj [("status", str "success");
        ("service", VStr name);
        ("logs", VArr (take 1000 (rev (outLogs ++ errorLogs))));
        ("totalLines", len (rev (outLogs ++ errorLogs)));
        ("outLogLines", len outLogs);
        ("errorLogLines", len errorLogs)].

(** A history of writes: which channel received which line, oldest
    first.  [written c history] is what the file of channel [c] then
    holds. *)
Definition on_channel (c : Channel) (e : Channel * jsstring) : bool :=
  match c, fst e with
  | COut, COut | CError, CError => true
  | _, _ => false
  end.

Definition written (c : Channel) (history : list (Channel * jsstring))
  : list jsstring :=
  map snd (List.filter (on_channel c) history).

(** A world of the sample supervisor whose two log files of [api] hold a
    history of writes. *)
Definition world_of_history (history : list (Channel * jsstring)) : World :=
  sample_world [(api_out, mkFile 1 true (lines_text (written COut history)));
                (api_error, mkFile 2 true (lines_text (written CError history)))].

(** Ten lines on stdout and five on stderr, the last one written on
    stdout. *)
Definition sample_history : list (Channel * jsstring) :=
  [(COut, lit "o1"); (CError, lit "e1"); (COut, lit "o2"); (CError, lit "e2");
   (COut, lit "o3"); (CError, lit "e3"); (COut, lit "o4"); (CError, lit "e4");
   (COut, lit "o5"); (CError, lit "e5"); (COut, lit "o6"); (COut, lit "o7");
   (COut, lit "o8"); (COut, lit "o9"); (COut, lit "o10")].

(** The first element of the [logs] array of a response. *)
Definition first_log (resp : Response) : option jsval :=
  match field "logs" (body resp) with
  | VArr (e :: _) => Some e
  | _ => None
  end.

(** [well_formed], as a test. *)
Definition well_formedb (line : jsstring) : bool :=
  negb (existsb (N.eqb NL) line) && has_text line.

(** [msgs] more messages delivered on socket [ws]. *)
Definition add_sent (msgs : list jsval) (s : WebSocket) : WebSocket :=
  mkWs (readyState s) (sent s ++ msgs) (closed_with s)
       (on_message s) (on_close s) (on_error s).

Definition deliver (ws : nat) (msgs : list jsval) (w : World) : World :=
  with_sockets (alter (add_sent msgs) ws (sockets w)) w.









(** A world in which one client streams the stdout of [api]: the out log
    holds one line when the session opens. *)
Definition streaming_world : World :=
  handle_all [Connection (lit "api") (Some (lit "out")) false]
             (sample_world [(api_out, mkFile 1 true (ln "a"))]).

(** The tail process of that session, as spawned. *)
Definition api_tail : TailProc :=
  mkTail api_out (Some 1%N) 2 0 0 (lit "api") COut.

(** ** Two-state relations *)

(** Every run of [m] relates the world before to the world after. *)
Definition preserves (R : World -> World -> Prop) {A} (m : M A) : Prop :=
  forall w, R w (snd (m w)).

Definition pong : jsval := VObj [("type", str "pong")].









(** What the body of [getPM2Process] computes from the supervisor's
    answer. *)
Definition check_result (w : World) (name : jsstring)
  : Res (option ProcessDetail) :=
  match supervisor w (length (execd w)) (lit "pm2 jlist") with
  | ExecFail m => Throw m
  | ExecOk out _ =>
      (processes <-? JSON_parse w out ;;
       l <-? array_of processes "find" ;;
       process <-? js_find (fun p => (n <-? get_prop p "name" ;;
                                      Ok (strict_eq_str n name))) l ;;
       if negb (truthy process) then Ok None
       else d <-? detail (PM2_LOG_DIR w) process name ;; Ok (Some d))%res
  end.







(** A world in which one client streams both channels of [api]. *)
Definition both_world : World :=
  handle_all [Connection (lit "api") None false]
             (sample_world [(api_out, mkFile 1 true (ln "a"));
                            (api_error, mkFile 2 true (ln "e"))]).

(** The channel of each tail process and the [kill()] calls it got. *)
Definition tail_kills (w : World) : list (Channel * nat) :=
  map (fun p => (t_channel p, t_kills p)) (tails w).

Definition ready_state (ws : nat) (w : World) : N :=
  readyState (default CLOSED_SOCKET (sockets w !! ws)).

(** What [cleanup] can reach: every [tailProcess] variable that is set
    holds a stdout tailer; and no stderr tailer was ever signalled. *)
Definition stderr_safe (w : World) : Prop :=
  (forall env e h, envs w !! env = Some e -> tailProcess e = Some h ->
     exists p, tails w !! h = Some p /\ t_channel p = COut)
  /\ (forall h p, tails w !! h = Some p -> t_channel p = CError ->
        t_kills p = 0).

Definition keeps_safe (w w' : World) : Prop := stderr_safe w -> stderr_safe w'.

(** * Properties *)

(** ** Lines of a text *)




Lemma trimStart_nil (s : jsstring) :
  trimStart s = [] <-> forallb is_ws s = true.
Proof.
  induction s as [|c s IH]; simpl; [tauto|].
  destruct (is_ws c); simpl; [exact IH|].
  split; discriminate.
Qed.

Lemma trimStart_all_ws (s : jsstring) :
  forallb is_ws (trimStart s) = true -> trimStart s = [].
Proof.
  induction s as [|c s IH]; simpl; [reflexivity|].
  destruct (is_ws c) eqn:E; [exact IH|].
  simpl. rewrite E. discriminate.
Qed.

Lemma forallb_rev {A} (f : A -> bool) (l : list A) :
  forallb f (rev l) = forallb f l.
Proof.
  induction l as [|x l IH]; simpl; [reflexivity|].
  rewrite forallb_app, IH. simpl. rewrite andb_true_r. apply andb_comm.
Qed.

Lemma trim_nil (s : jsstring) : trim s = [] <-> forallb is_ws s = true.
Proof.
  unfold trim, trimEnd. split.
  - intros H. apply (f_equal (@rev N)) in H. rewrite rev_involutive in H.
    simpl in H. apply trimStart_nil in H. rewrite forallb_rev in H.
    apply trimStart_nil. now apply trimStart_all_ws.
  - intros H. apply trimStart_nil in H. rewrite H. reflexivity.
Qed.

(** [line.trim()] is truthy exactly when the line holds a unit that is
    not white space. *)
Lemma truthy_trim (s : jsstring) : truthy_str (trim s) = has_text s.
Proof.
  unfold has_text.
  destruct (forallb is_ws s) eqn:E.
  - assert (trim s = []) as -> by now apply trim_nil.
    simpl. symmetry. apply not_true_is_false. intros H.
    apply existsb_exists in H as (c & Hc & Hn).
    rewrite forallb_forall in E. rewrite (E c Hc) in Hn. discriminate.
  - destruct (trim s) eqn:T.
    + apply trim_nil in T. congruence.
    + simpl. symmetry.
      destruct (existsb (fun c => negb (is_ws c)) s) eqn:X; [reflexivity|].
      exfalso. assert (forallb is_ws s = true); [|congruence].
      apply forallb_forall. intros c Hc.
      destruct (is_ws c) eqn:W; [reflexivity|].
      assert (existsb (fun c => negb (is_ws c)) s = true); [|congruence].
      apply existsb_exists. exists c. now rewrite W.
Qed.

Lemma split_nonempty sep s : split sep s <> [].
Proof.
  destruct s as [|c s]; simpl; [discriminate|].
  destruct (N.eqb c sep); [discriminate|].
  destruct (split sep s); discriminate.
Qed.

Lemma split_no_sep (s : jsstring) : NL ∉ s -> split NL s = [s].
Proof.
  induction s as [|c s IH]; intros H; simpl; [reflexivity|].
  destruct (N.eqb_spec c NL) as [->|Hc].
  - exfalso. apply H. left.
  - rewrite IH; [reflexivity|]. intros Hin. apply H. now right.
Qed.

Lemma split_line (l rest : jsstring) :
  NL ∉ l -> split NL (l ++ NL :: rest) = l :: split NL rest.
Proof.
  induction l as [|c l IH]; intros H; simpl.
  - reflexivity.
  - destruct (N.eqb_spec c NL) as [->|Hc].
    + exfalso. apply H. left.
    + rewrite IH; [reflexivity|]. intros Hin. apply H. now right.
Qed.

Lemma nonblank_lines_cons (l rest : jsstring) :
  well_formed l ->
  nonblank_lines ((l ++ [NL]) ++ rest) = l :: nonblank_lines rest.
Proof.
  intros [Hnl Ht]. unfold nonblank_lines.
  rewrite <- app_assoc. simpl. rewrite split_line by assumption.
  simpl. rewrite truthy_trim, Ht. reflexivity.
Qed.

(** Whole lines followed by a remainder without terminator: every line,
    and the remainder when it has text. *)
Lemma nonblank_lines_text (ls : list jsstring) (partial : jsstring) :
  Forall well_formed ls -> NL ∉ partial ->
  nonblank_lines (lines_text ls ++ partial)
  = ls ++ (if has_text partial then [partial] else []).
Proof.
  intros Hls Hp. induction Hls as [|l ls Hl _ IH]; simpl.
  - unfold nonblank_lines. rewrite split_no_sep by assumption.
    simpl. rewrite truthy_trim. reflexivity.
  - unfold lines_text in *. simpl. rewrite <- app_assoc.
    rewrite nonblank_lines_cons by assumption. now rewrite IH.
Qed.

Lemma nonblank_lines_whole (ls : list jsstring) :
  Forall well_formed ls -> nonblank_lines (lines_text ls) = ls.
Proof.
  intros H. rewrite <- (app_nil_r (lines_text ls)).
  rewrite nonblank_lines_text; [apply app_nil_r|assumption|].
  intros Hin. inversion Hin.
Qed.


Lemma well_formed_check (ls : list jsstring) :
  forallb well_formedb ls = true -> Forall well_formed ls.
Proof.
  rewrite forallb_forall, Forall_forall. intros H l Hl.
  apply list_elem_of_In, H, andb_true_iff in Hl as [Hn Ht].
  split; [|assumption].
  intros Hin. apply negb_true_iff in Hn.
  assert (existsb (N.eqb NL) l = true); [|congruence].
  apply existsb_exists. exists NL. split; [now apply list_elem_of_In|].
  apply N.eqb_refl.
Qed.

Lemma nonblank_lines_have_text (text line : jsstring) :
  line ∈ nonblank_lines text -> has_text line = true.
Proof.
  unfold nonblank_lines. rewrite list_elem_of_In, filter_In.
  intros [_ H]. now rewrite truthy_trim in H.
Qed.

(** ** Running the monad *)

Lemma bind_ok {A B} (m : M A) (k : A -> M B) w a w1 :
  m w = (Ok a, w1) -> bind m k w = k a w1.
Proof. unfold bind. now intros ->. Qed.

Lemma bind_throw {A B} (m : M A) (k : A -> M B) w e w1 :
  m w = (Throw e, w1) -> bind m k w = (Throw e, w1).
Proof. unfold bind. now intros ->. Qed.

Lemma try_catch_ok {A} (m : M A) h w a w1 :
  m w = (Ok a, w1) -> try_catch m h w = (Ok a, w1).
Proof. unfold try_catch. now intros ->. Qed.

Lemma try_catch_throw {A} (m : M A) h w e w1 r :
  m w = (Throw e, w1) -> h e w1 = r -> try_catch m h w = r.
Proof. unfold try_catch. now intros -> <-. Qed.

(** ** The service log

    [log] never throws, and touches nothing but the console and the
    service's own log file. *)


Lemma logged_refl w : logged w w.
Proof. now constructor. Qed.

Lemma logged_trans w1 w2 w3 : logged w1 w2 -> logged w2 w3 -> logged w1 w3.
Proof.
  intros [] []. constructor; try congruence.
  intros p Hp. rewrite lg_fs1, lg_fs0; auto.
Qed.

Lemma logged_console l w : logged w (with_console l w).
Proof. now constructor. Qed.

Lemma logged_write data w : logged w (snd (writeFileSync logFile data w)).
Proof.
  unfold writeFileSync. destruct (fs w !! logFile); simpl;
    constructor; simpl; try reflexivity;
    intros p Hp; now rewrite lookup_insert_ne.
Qed.

Lemma logged_append data w : logged w (snd (appendFileSync logFile data w)).
Proof.
  unfold appendFileSync. destruct (fs w !! logFile); simpl;
    constructor; simpl; try reflexivity;
    intros p Hp; now rewrite lookup_insert_ne.
Qed.

Lemma rotateLogs_spec w :
  exists w', rotateLogs w = (Ok tt, w') /\ logged w w'
             /\ exists extra, console w' = console w ++ extra.
Proof.
  unfold rotateLogs, try_catch, bind, existsSync, ret.
  destruct (bool_decide (is_Some (fs w !! logFile))); simpl.
  2:{ exists w. split; [reflexivity|]. split; [apply logged_refl|].
      exists []. now rewrite app_nil_r. }
  unfold readFileSync.
  destruct (fs w !! logFile) as [f|] eqn:Hf.
  2:{ eexists. split; [reflexivity|]. split; [apply logged_console|].
      simpl. eauto. }
  destruct (readable f).
  2:{ eexists. split; [reflexivity|]. split; [apply logged_console|].
      simpl. eauto. }
  destruct (MAX_LOG_LINES <? length (nonblank_lines (content f))).
  2:{ exists w. split; [reflexivity|]. split; [apply logged_refl|].
      exists []. now rewrite app_nil_r. }
  unfold writeFileSync. rewrite Hf. cbn [toISOString console_log modify].
  eexists. split; [reflexivity|]. split.
  - constructor; simpl; try reflexivity.
    intros p Hp. now rewrite lookup_insert_ne.
  - simpl. eauto.
Qed.


Lemma log_spec msg w :
  exists w', log msg w = (Ok tt, w') /\ logged w w'
    /\ (exists extra, console w' = console w ++ log_line w msg :: extra)
    /\ (exists f before, fs w' !! logFile = Some f
                         /\ content f = before ++ log_line w msg ++ [NL]).
Proof.
  unfold log, bind, toISOString, console_log, modify.
  destruct (rotateLogs_spec (with_console (console w ++ [log_line w msg]) w))
    as (w1 & E1 & L1 & extra & C1).
  fold (log_line w msg). rewrite E1.
  pose proof (logged_append (log_line w msg ++ [NL]) w1) as L2.
  unfold appendFileSync in *.
  destruct (fs w1 !! logFile) as [f|] eqn:Hf; simpl in *.
  - eexists. split; [reflexivity|]. split; [|split].
    + eapply logged_trans; [apply logged_console|].
      eapply logged_trans; eassumption.
    + simpl. rewrite C1. simpl. rewrite <- app_assoc. simpl. eauto.
    + simpl. rewrite lookup_insert_eq. eexists _, _. split; reflexivity.
  - eexists. split; [reflexivity|]. split; [|split].
    + eapply logged_trans; [apply logged_console|].
      eapply logged_trans; eassumption.
    + simpl. rewrite C1. simpl. rewrite <- app_assoc. simpl. eauto.
    + simpl. rewrite lookup_insert_eq. exists (mkFile (next_ino w1) true (log_line w msg ++ [NL])), [].
      split; reflexivity.
Qed.

(** ** Process Directory *)


Lemma execAsync_world cmd w : snd (execAsync cmd w) = asked cmd w.
Proof. unfold execAsync. now destruct (supervisor w (length (execd w)) cmd). Qed.

Lemma detail_paths dir process name d :
  detail dir process name = Ok d ->
  out_log d = dir ++ lit "/" ++ name ++ lit "-out.log"
  /\ error_log d = dir ++ lit "/" ++ name ++ lit "-error.log".
Proof.
  unfold detail.
  repeat match goal with
         | |- context [rbind ?r _] =>
             let E := fresh "E" in destruct r eqn:E; simpl; [|discriminate]
         end.
  intros [= <-]. simpl. split; reflexivity.
Qed.

(** [getPM2Process] never throws; it hands exactly one command to the
    supervisor, the query; when it answers with a process it has written
    nothing, and the log paths follow the naming convention. *)
Lemma getPM2Process_spec name w :
  exists r w',
    getPM2Process name w = (Ok r, w')
    /\ logged (asked (lit "pm2 jlist") w) w'
    /\ forall d, r = Some d ->
         w' = asked (lit "pm2 jlist") w
         /\ out_log d = PM2_LOG_DIR w ++ lit "/" ++ name ++ lit "-out.log"
         /\ error_log d = PM2_LOG_DIR w ++ lit "/" ++ name ++ lit "-error.log".
Proof.
  unfold getPM2Process, try_catch.
  set (body := bind _ _).
  assert (exists res, body w = (res, asked (lit "pm2 jlist") w)
            /\ forall d, res = Ok (Some d) ->
                 out_log d = PM2_LOG_DIR w ++ lit "/" ++ name ++ lit "-out.log"
                 /\ error_log d = PM2_LOG_DIR w ++ lit "/" ++ name ++ lit "-error.log")
    as (res & -> & Hres).
  { subst body. unfold bind at 1. unfold execAsync. fold (asked (lit "pm2 jlist") w).
    destruct (supervisor w (length (execd w)) (lit "pm2 jlist")) as [out err|m];
      [|eexists; split; [reflexivity|discriminate]].
    unfold bind, parse, lift, log_dir, ret. simpl.
    destruct (JSON_parse w out) as [v|e];
      [|eexists; split; [reflexivity|discriminate]].
    destruct (array_of v "find") as [l|e];
      [|eexists; split; [reflexivity|discriminate]].
    destruct (js_find _ l) as [p|e];
      [|eexists; split; [reflexivity|discriminate]].
    destruct (truthy p); simpl;
      [|eexists; split; [reflexivity|discriminate]].
    change (PM2_LOG_DIR (asked (lit "pm2 jlist") w)) with (PM2_LOG_DIR w).
    destruct (detail _ p name) as [d|e] eqn:D;
      [|eexists; split; [reflexivity|discriminate]].
    eexists. split; [reflexivity|]. intros d' [= <-].
    now apply detail_paths in D. }
  destruct res as [[d|]|e].
  - exists (Some d), (asked (lit "pm2 jlist") w). split; [reflexivity|].
    split; [apply logged_refl|]. intros d' [= <-].
    split; [reflexivity|]. now apply Hres.
  - exists None, (asked (lit "pm2 jlist") w). split; [reflexivity|].
    split; [apply logged_refl|]. discriminate.
  - unfold bind.
    destruct (log_spec (lit "Error getting PM2 process " ++ name ++ lit ": " ++ e)
                (asked (lit "pm2 jlist") w)) as (w2 & -> & L2 & _).
    exists None, w2. split; [reflexivity|]. split; [assumption|]. discriminate.
Qed.

(** ** Combined log retrieval *)

Lemma nonblank_lines_filter text :
  nonblank_lines text = List.filter has_text (split NL text).
Proof.
  unfold nonblank_lines. apply filter_ext. intros l. apply truthy_trim.
Qed.


Lemma error_log_not_logFile (dir name : jsstring) :
  dir ++ lit "/" ++ name ++ lit "-error.log" <> logFile.
Proof.
  intros H. apply (f_equal (@rev N)) in H.
  rewrite !rev_app_distr in H. rewrite <- !app_assoc in H.
  remember (rev name ++ rev (lit "/") ++ rev dir) as rest.
  vm_compute in H. discriminate.
Qed.

Lemma text_lines_logged w w' path :
  logged w w' -> path <> logFile -> text_lines w' path = text_lines w path.
Proof. intros L H. unfold text_lines. now rewrite (lg_fs _ _ L). Qed.

Lemma readFileSync_spec path w :
  readFileSync path w
  = match fs w !! path with
    | Some f =>
        if readable f then (Ok (content f), w)
        else (Throw (lit "EACCES: permission denied, open '" ++ path ++ lit "'"), w)
    | None =>
        (Throw (lit "ENOENT: no such file or directory, open '" ++ path ++ lit "'"), w)
    end.
Proof. reflexivity. Qed.

Lemma read_log_entries_spec c path what w :
  exists w', read_log_entries c path what w
             = (Ok (map (log_entry c) (text_lines w path)), w')
             /\ logged w w'.
Proof.
  unfold read_log_entries, text_lines.
  rewrite (bind_ok _ _ w (bool_decide (is_Some (fs w !! path))) w) by reflexivity.
  destruct (fs w !! path) as [f|] eqn:Hf.
  - rewrite bool_decide_eq_true_2 by eauto.
    destruct (readable f) eqn:R.
    + exists w. rewrite <- nonblank_lines_filter.
      split; [|apply logged_refl].
      apply try_catch_ok.
      rewrite (bind_ok _ _ w (content f) w); [reflexivity|].
      rewrite readFileSync_spec. now rewrite Hf, R.
    + destruct (log_spec
                  (lit "Error reading " ++ lit what ++ lit " log: "
                     ++ lit "EACCES: permission denied, open '" ++ path ++ lit "'") w)
        as (w' & E & L & _).
      exists w'. split; [|assumption].
      eapply try_catch_throw.
      { apply bind_throw. rewrite readFileSync_spec. rewrite Hf, R. reflexivity. }
      rewrite (bind_ok _ _ w tt w'); [reflexivity|exact E].
  - rewrite bool_decide_eq_false_2 by (intros [? ?]; discriminate).
    exists w. split; [reflexivity|apply logged_refl].
Qed.

(** Every response of the handler, by the outcome of the existence
    check. *)
Lemma get_logs_cases name w :
  exists resp w', get_logs name w = (Ok resp, w') /\
    ((name = [] /\ statusCode resp = 400%Z)
     \/ (exists w1, getPM2Process name w = (Ok None, w1) /\ statusCode resp = 404%Z)
     \/ (exists d, getPM2Process name w = (Ok (Some d), asked (lit "pm2 jlist") w)
           /\ name <> []
           /\ resp = mkResponse 200
                       (logs_body name (text_lines w (outLogPath w name))
                                       (text_lines w (errorLogPath w name))))).
Proof.
  unfold get_logs. destruct name as [|c name]; simpl.
  { eexists _, _. split; [reflexivity|]. left. split; reflexivity. }
  set (n := c :: name).
  destruct (getPM2Process_spec n w) as (r & w1 & E & L & Hd).
  unfold try_catch, bind at 1. rewrite E.
  destruct r as [d|].
  - destruct (Hd d eq_refl) as (-> & Ho & He).
    rewrite Ho, He.
    destruct (read_log_entries_spec COut (outLogPath w n) "out"
                (asked (lit "pm2 jlist") w)) as (w2 & E2 & L2).
    destruct (read_log_entries_spec CError (errorLogPath w n) "error" w2)
      as (w3 & E3 & L3).
    unfold bind. fold (outLogPath w n). fold (errorLogPath w n).
    rewrite E2, E3. unfold sendJSON, ret.
    eexists _, _. split; [reflexivity|]. right. right.
    exists d. split; [reflexivity|]. split; [discriminate|].
    rewrite (text_lines_logged _ _ _ L2) by apply error_log_not_logFile.
    reflexivity.
  - eexists _, _. split; [reflexivity|]. right. left.
    exists w1. split; reflexivity.
Qed.

Lemma get_logs_success name w resp w' :
  get_logs name w = (Ok resp, w') -> statusCode resp = 200%Z ->
  name <> []
  /\ body resp = logs_body name (text_lines w (outLogPath w name))
                                (text_lines w (errorLogPath w name)).
Proof.
  intros E S.
  destruct (get_logs_cases name w) as (resp0 & w0 & E0 & H).
  rewrite E in E0. injection E0 as <- <-.
  destruct H as [[_ H]|[(w1 & _ & H)|(d & _ & Hn & ->)]];
    [rewrite H in S; discriminate..|].
  split; [assumption|reflexivity].
Qed.

Lemma text_lines_have_text w path :
  Forall (fun l => has_text l = true) (text_lines w path).
Proof.
  unfold text_lines. destruct (fs w !! path) as [f|]; [|constructor].
  destruct (readable f); [|constructor].
  apply Forall_forall. intros l Hl. apply list_elem_of_In, filter_In in Hl.
  apply Hl.
Qed.

(** C10: every successful response of GET /pm2/[name]/logs has
    totalLines = outLogLines + errorLogLines and a logs array of length
    min(totalLines, 1000); the counts are those of the lines holding text
    in each file, and no entry of the array is blank. *)
Theorem logs_counts_consistent name w resp w' :
  get_logs name w = (Ok resp, w') -> statusCode resp = 200%Z ->
  exists (outs errs : list jsstring) (logs : list jsval),
    outs = text_lines w (outLogPath w name)
    /\ errs = text_lines w (errorLogPath w name)
    /\ field "outLogLines" (body resp) = VNum (Z.of_nat (length outs))
    /\ field "errorLogLines" (body resp) = VNum (Z.of_nat (length errs))
    /\ field "totalLines" (body resp)
       = VNum (Z.of_nat (length outs) + Z.of_nat (length errs))
    /\ field "logs" (body resp) = VArr logs
    /\ length logs = Nat.min (length outs + length errs) 1000
    /\ Forall (fun e => has_text (message_text e) = true) logs.
Proof.
  intros E S. destruct (get_logs_success _ _ _ _ E S) as [_ ->].
  set (outs := text_lines w (outLogPath w name)).
  set (errs := text_lines w (errorLogPath w name)).
  exists outs, errs, (take 1000 (rev (map (log_entry COut) outs
                                        ++ map (log_entry CError) errs))).
  split; [reflexivity|]. split; [reflexivity|].
  unfold logs_body, field, len. cbn [assoc String.eqb Ascii.eqb Bool.eqb default].
  rewrite length_rev, length_app, !length_map, Nat2Z.inj_add.
  repeat split.
  - rewrite length_take, length_rev, length_app, !length_map. lia.
  - apply Forall_forall. intros e He.
    apply subseteq_take, list_elem_of_In, in_rev, in_app_iff in He.
    destruct He as [He|He]; apply in_map_iff in He as (l & <- & Hl);
      apply list_elem_of_In in Hl; simpl;
      eapply (proj1 (Forall_forall _ _) (text_lines_have_text _ _)); eassumption.
Qed.

Lemma logs_counts_consistent_witness :
  exists resp w',
    get_logs (lit "api") (world_of_history sample_history) = (Ok resp, w')
    /\ field "totalLines" (body resp) = VNum 15
    /\ exists logs, field "logs" (body resp) = VArr logs /\ length logs = 15.
Proof.
  set (r := get_logs (lit "api") (world_of_history sample_history)).
  assert (r = (Ok (match fst r with Ok x => x | Throw _ => mkResponse 0 VNull end),
               snd r)) as E by (vm_compute; reflexivity).
  destruct (logs_counts_consistent _ _ _ _ E ltac:(vm_compute; reflexivity))
    as (outs & errs & logs & -> & -> & _ & _ & Ht & Hl & Hn & _).
  eexists _, _. split; [exact E|]. split.
  - rewrite Ht. vm_compute. reflexivity.
  - exists logs. split; [exact Hl|]. rewrite Hn. vm_compute. reflexivity.
Defined.

(** The claim of C7 fails as stated: the entries have no property named
    [channel] or [text].  The first entry of the sample response has the
    properties [type], [message] and [timestamp], and its channel reads
    [error], not [stderr]. *)
Lemma logs_entry_has_no_channel_field :
  exists resp w' e,
    get_logs (lit "api") (world_of_history sample_history) = (Ok resp, w')
    /\ statusCode resp = 200%Z
    /\ first_log resp = Some e
    /\ keys e = ["type"; "message"; "timestamp"]
    /\ field "channel" e = VUndef
    /\ field "text" e = VUndef
    /\ field "type" e = VStr (lit "error")
    /\ field "message" e = VStr (lit "e5").
Proof.
  eexists _, _, _. split; [vm_compute; reflexivity|].
  split; [reflexivity|]. split; [reflexivity|].
  repeat split; reflexivity.
Qed.

(** C7 (amended): every entry of the logs array of a successful GET
    /pm2/[name]/logs response is an object with exactly three properties,
    in this order: [type], which is ['out'] for a line read from the out
    log and ['error'] for a line read from the error log; [message], which
    is that line, one of the lines holding text of that file; and
    [timestamp], which is null. *)
Theorem logs_entries_shape name w resp w' :
  get_logs name w = (Ok resp, w') -> statusCode resp = 200%Z ->
  exists logs,
    field "logs" (body resp) = VArr logs
    /\ Forall (fun e =>
                 exists line,
                   (e = VObj [("type", VStr (lit "out"));
                              ("message", VStr line);
                              ("timestamp", VNull)]
                    /\ line ∈ text_lines w (outLogPath w name))
                   \/ (e = VObj [("type", VStr (lit "error"));
                                 ("message", VStr line);
                                 ("timestamp", VNull)]
                       /\ line ∈ text_lines w (errorLogPath w name))) logs.
Proof.
  intros E S. destruct (get_logs_success _ _ _ _ E S) as [_ ->].
  eexists. split; [reflexivity|].
  apply Forall_forall. intros e He.
  apply subseteq_take, list_elem_of_In, in_rev, in_app_iff in He.
  destruct He as [He|He]; apply in_map_iff in He as (l & <- & Hl);
    apply list_elem_of_In in Hl; exists l; [left|right];
    (split; [reflexivity|exact Hl]).
Qed.

Lemma logs_entries_shape_witness :
  exists resp w' logs,
    get_logs (lit "api") (world_of_history sample_history) = (Ok resp, w')
    /\ field "logs" (body resp) = VArr logs
    /\ Forall (fun e => keys e = ["type"; "message"; "timestamp"]
                        /\ field "timestamp" e = VNull) logs.
Proof.
  set (r := get_logs (lit "api") (world_of_history sample_history)).
  assert (r = (Ok (match fst r with Ok x => x | Throw _ => mkResponse 0 VNull end),
               snd r)) as E by (vm_compute; reflexivity).
  destruct (logs_entries_shape _ _ _ _ E ltac:(vm_compute; reflexivity))
    as (logs & Hl & Hs).
  eexists _, _, logs. split; [exact E|]. split; [exact Hl|].
  eapply Forall_impl; [exact Hs|].
  intros e (line & [[-> _]|[-> _]]); split; reflexivity.
Defined.

(** The claim of C6 fails as stated: with ten lines on stdout and five on
    stderr, the last one written on stdout, the first entry of the logs
    array is the last line of the error log, not the line written last. *)
Lemma logs_first_entry_not_latest :
  length (written COut sample_history) = 10
  /\ length (written CError sample_history) = 5
  /\ last sample_history = Some (COut, lit "o10")
  /\ exists resp w',
       get_logs (lit "api") (world_of_history sample_history) = (Ok resp, w')
       /\ statusCode resp = 200%Z
       /\ first_log resp = Some (log_entry CError (lit "e5"))
       /\ first_log resp <> Some (log_entry COut (lit "o10")).
Proof.
  split; [reflexivity|]. split; [reflexivity|]. split; [reflexivity|].
  eexists _, _. split; [vm_compute; reflexivity|].
  split; [reflexivity|]. split; [reflexivity|]. discriminate.
Qed.

(** C6 (amended): with ten lines on stdout and five on stderr the
    response has totalLines 15, outLogLines 10, errorLogLines 5, and its
    logs array is the error log last line first, followed by the out log
    last line first; so the first entry is the last line of the error log.
    The array holds at most 1000 entries. *)
Theorem logs_ten_and_five name w d outs errs fo fe :
  name <> [] ->
  getPM2Process name w = (Ok (Some d), asked (lit "pm2 jlist") w) ->
  fs w !! outLogPath w name = Some fo -> readable fo = true ->
  content fo = lines_text outs ->
  fs w !! errorLogPath w name = Some fe -> readable fe = true ->
  content fe = lines_text errs ->
  Forall well_formed outs -> Forall well_formed errs ->
  length outs = 10 -> length errs = 5 ->
  exists resp w' logs,
    get_logs name w = (Ok resp, w')
    /\ statusCode resp = 200%Z
    /\ field "totalLines" (body resp) = VNum 15
    /\ field "outLogLines" (body resp) = VNum 10
    /\ field "errorLogLines" (body resp) = VNum 5
    /\ field "logs" (body resp) = VArr logs
    /\ logs = map (log_entry CError) (rev errs) ++ map (log_entry COut) (rev outs)
    /\ first_log resp = option_map (log_entry CError) (last errs)
    /\ length logs <= 1000.
Proof.
  intros Hn Hp Ho Ro Co He Re Ce Wo We Lo Le.
  destruct (get_logs_cases name w) as (resp & w' & E & H).
  destruct H as [[H _]|[(w1 & H & _)|(d' & _ & _ & ->)]];
    [congruence|rewrite Hp in H; discriminate|].
  assert (text_lines w (outLogPath w name) = outs) as To.
  { unfold text_lines. rewrite Ho, Ro, Co, <- nonblank_lines_filter.
    now apply nonblank_lines_whole. }
  assert (text_lines w (errorLogPath w name) = errs) as Te.
  { unfold text_lines. rewrite He, Re, Ce, <- nonblank_lines_filter.
    now apply nonblank_lines_whole. }
  rewrite To, Te in E.
  assert (take 1000 (rev (map (log_entry COut) outs ++ map (log_entry CError) errs))
          = map (log_entry CError) (rev errs) ++ map (log_entry COut) (rev outs))
    as Hlogs.
  { rewrite rev_app_distr, <- !map_rev. apply take_ge.
    rewrite length_app, !length_map, !length_rev. lia. }
  exists (mkResponse 200 (logs_body name outs errs)), w',
    (map (log_entry CError) (rev errs) ++ map (log_entry COut) (rev outs)).
  split; [exact E|]. split; [reflexivity|].
  unfold first_log, logs_body, field, len.
  cbn [body assoc String.eqb Ascii.eqb Bool.eqb default].
  rewrite Hlogs, length_rev, length_app, !length_map, Lo, Le.
  repeat split.
  - destruct errs as [|e errs _] using rev_ind; [discriminate|].
    rewrite rev_app_distr, last_snoc. reflexivity.
  - rewrite length_app, !length_map, !length_rev. lia.
Qed.

Lemma logs_ten_and_five_witness :
  exists resp w',
    get_logs (lit "api") (world_of_history sample_history) = (Ok resp, w')
    /\ field "totalLines" (body resp) = VNum 15
    /\ first_log resp = Some (log_entry CError (lit "e5")).
Proof.
  destruct (logs_ten_and_five (lit "api") (world_of_history sample_history)
              (match fst (getPM2Process (lit "api") (world_of_history sample_history))
               with Ok (Some d) => d
               | _ => mkDetail VNull VNull VNull VNull VNull VNull VNull VNull VNull [] []
               end)
              (written COut sample_history) (written CError sample_history)
              (mkFile 1 true (lines_text (written COut sample_history)))
              (mkFile 2 true (lines_text (written CError sample_history))))
    as (resp & w' & logs & E & _ & Ht & _ & _ & _ & _ & Hf & _).
  - discriminate.
  - vm_compute. reflexivity.
  - vm_compute. reflexivity.
  - reflexivity.
  - reflexivity.
  - vm_compute. reflexivity.
  - reflexivity.
  - reflexivity.
  - apply well_formed_check. reflexivity.
  - apply well_formed_check. reflexivity.
  - reflexivity.
  - reflexivity.
  - exists resp, w'. split; [exact E|]. split; [exact Ht|].
    rewrite Hf. reflexivity.
Defined.

(** ** Process Control *)

(** C8: when the existence check finds no process, POST
    /pm2/[name]/restart answers with an error whose message says the
    process was not found, and the only command handed to the supervisor
    is the query of the check: no restart command is issued. *)
Theorem restart_unknown_process name w w1 :
  name <> [] ->
  getPM2Process name w = (Ok None, w1) ->
  restartPM2Process name w
  = (Ok (mkResult false (lit "Process " ++ name ++ lit " not found")), w1)
  /\ post_restart name w
     = (Ok (mkResponse 404
              (VObj [("status", str "error");
                     ("message",
                      VStr (lit "Process " ++ name ++ lit " not found"))])),
        w1)
  /\ execd w1 = execd w ++ [lit "pm2 jlist"]
  /\ lit "pm2 restart " ++ name ∉ drop (length (execd w)) (execd w1).
Proof.
  intros Hn E.
  assert (restartPM2Process name w
          = (Ok (mkResult false (lit "Process " ++ name ++ lit " not found")), w1))
    as R.
  { unfold restartPM2Process. apply try_catch_ok.
    rewrite (bind_ok _ _ w None w1) by exact E. reflexivity. }
  assert (execd w1 = execd w ++ [lit "pm2 jlist"]) as X.
  { destruct (getPM2Process_spec name w) as (r & w' & E' & L & _).
    rewrite E in E'. injection E' as <- <-. now rewrite (lg_execd _ _ L). }
  split; [exact R|]. split; [|split; [exact X|]].
  - unfold post_restart. destruct name as [|c name]; [congruence|].
    cbn [truthy_str negb]. apply try_catch_ok.
    rewrite (bind_ok _ _ w _ w1 R). reflexivity.
  - rewrite X, drop_app_length. intros H.
    apply list_elem_of_singleton in H.
    apply (f_equal (take 5)) in H. vm_compute in H. discriminate.
Qed.

Lemma restart_unknown_process_witness :
  exists w1,
    post_restart (lit "ghost") (sample_world [])
    = (Ok (mkResponse 404
             (VObj [("status", str "error");
                    ("message", VStr (lit "Process ghost not found"))])), w1)
    /\ execd w1 = [lit "pm2 jlist"].
Proof.
  exists (snd (getPM2Process (lit "ghost") (sample_world []))).
  destruct (restart_unknown_process (lit "ghost") (sample_world [])
              (snd (getPM2Process (lit "ghost") (sample_world []))))
    as (_ & P & X & _).
  - discriminate.
  - vm_compute. reflexivity.
  - split; [exact P|exact X].
Defined.

(** ** Listing the processes *)

Lemma getPM2Processes_never_throws w :
  exists v w', getPM2Processes w = (Ok v, w').
Proof.
  unfold getPM2Processes, try_catch.
  destruct (bind _ _ w) as [[v|e] w1]; [eauto|].
  destruct (log_spec (lit "Error getting PM2 processes: " ++ e) w1)
    as (w2 & E & _).
  rewrite (bind_ok _ _ w1 tt w2 E). eauto.
Qed.

(** ** Listing the processes when writes may be refused *)

(** On a disk that takes every write the functions of [Faulty] are those
    of the service above. *)
Lemma no_write_error_log msg w : Faulty.log no_write_error msg w = log msg w.
Proof. reflexivity. Qed.

Lemma no_write_error_getPM2Processes w :
  Faulty.getPM2Processes no_write_error w = getPM2Processes w.
Proof. reflexivity. Qed.

Lemma no_write_error_get_list w :
  Faulty.get_list no_write_error w = get_list w.
Proof. reflexivity. Qed.

(** Rotation swallows a refused write: it never throws, and touches
    nothing but the console and the service log. *)
Lemma faulty_rotateLogs_spec write_error w :
  exists w', Faulty.rotateLogs write_error w = (Ok tt, w') /\ logged w w'
             /\ exists extra, console w' = console w ++ extra.
Proof.
  unfold Faulty.rotateLogs, try_catch, bind, existsSync, ret.
  destruct (bool_decide (is_Some (fs w !! logFile))); simpl.
  2:{ exists w. split; [reflexivity|]. split; [apply logged_refl|].
      exists []. now rewrite app_nil_r. }
  unfold readFileSync.
  destruct (fs w !! logFile) as [f|] eqn:Hf.
  2:{ eexists. split; [reflexivity|]. split; [apply logged_console|].
      simpl. eauto. }
  destruct (readable f).
  2:{ eexists. split; [reflexivity|]. split; [apply logged_console|].
      simpl. eauto. }
  destruct (MAX_LOG_LINES <? length (nonblank_lines (content f))).
  2:{ exists w. split; [reflexivity|]. split; [apply logged_refl|].
      exists []. now rewrite app_nil_r. }
  unfold Faulty.writeFileSync.
  destruct (write_error logFile _) as [e|].
  { eexists. split; [reflexivity|]. split; [apply logged_console|].
    simpl. eauto. }
  unfold writeFileSync. rewrite Hf. cbn [toISOString console_log modify].
  eexists. split; [reflexivity|]. split.
  - constructor; simpl; try reflexivity.
    intros p Hp. now rewrite lookup_insert_ne.
  - simpl. eauto.
Qed.

(** [log] prints its line on the console first; it returns when the
    append is taken, and throws the error of the append when it is
    refused. *)
Lemma faulty_log_spec write_error msg w :
  exists w1,
    logged w w1
    /\ (exists extra, console w1 = console w ++ log_line w msg :: extra)
    /\ match write_error logFile (log_line w msg ++ [NL]) with
       | Some x => Faulty.log write_error msg w = (Throw x, w1)
       | None =>
           exists w', Faulty.log write_error msg w = (Ok tt, w')
             /\ logged w w'
             /\ console w' = console w1
             /\ exists f before, fs w' !! logFile = Some f
                  /\ content f = before ++ log_line w msg ++ [NL]
       end.
Proof.
  destruct (faulty_rotateLogs_spec write_error
              (with_console (console w ++ [log_line w msg]) w))
    as (w1 & E1 & L1 & extra & C1).
  exists w1.
  assert (logged w w1) as L
    by (eapply logged_trans; [apply logged_console|exact L1]).
  split; [exact L|]. split.
  { rewrite C1. simpl. rewrite <- app_assoc. simpl. eauto. }
  unfold Faulty.log, bind, toISOString, console_log, modify.
  fold (log_line w msg). rewrite E1. unfold Faulty.appendFileSync.
  destruct (write_error logFile (log_line w msg ++ [NL])) as [x|];
    [reflexivity|].
  pose proof (logged_append (log_line w msg ++ [NL]) w1) as L2.
  exists (snd (appendFileSync logFile (log_line w msg ++ [NL]) w1)).
  split; [|split; [eapply logged_trans; eassumption|split]].
  - unfold appendFileSync. now destruct (fs w1 !! logFile).
  - unfold appendFileSync. now destruct (fs w1 !! logFile).
  - unfold appendFileSync. destruct (fs w1 !! logFile) as [f|] eqn:Hf; simpl;
      rewrite lookup_insert_eq.
    + eexists _, _. split; reflexivity.
    + exists (mkFile (next_ino w1) true (log_line w msg ++ [NL])), [].
      split; reflexivity.
Qed.

(** The body of [getPM2Processes] up to the catch, when the query
    fails. *)
Lemma query_failure_thrown w e :
  query_failure w e ->
  (r <- execAsync (lit "pm2 jlist") ;;
   processes <- parse (fst r) ;;
   l <- lift (array_of processes "map") ;;
   res <- lift (js_map summary l) ;;
   ret (VArr res)) w
  = (Throw e, asked (lit "pm2 jlist") w).
Proof.
  unfold query_failure. intros Q.
  destruct (supervisor w (length (execd w)) (lit "pm2 jlist")) as [out err|m] eqn:S.
  - rewrite (bind_ok _ _ w (out, err) (asked (lit "pm2 jlist") w)).
    + apply bind_throw. unfold parse. cbn [fst].
      change (JSON_parse (asked (lit "pm2 jlist") w)) with (JSON_parse w).
      now rewrite Q.
    + unfold execAsync. now rewrite S.
  - subst e. apply bind_throw. unfold execAsync. now rewrite S.
Qed.

(** C9, at the failing input: the supervisor does not answer and the
    service log may not be written.  With a log that takes the write,
    getPM2Processes returns the empty array, as the claim says.  With the
    log read-only, the failure of the query is printed on the console,
    [log], called in the catch block, throws at its append (rotation,
    next to it, guards its own write), and the error of the write leaves
    getPM2Processes: no empty array is returned. *)
Theorem log_write_failure_propagates :
  let old := mkFile 5 true (ln "[T0] PM2 service started") in
  let w := world_with down_supervisor [(logFile, old)] in
  query_failure w (lit "Command failed: pm2 jlist")
  /\ fst (Faulty.getPM2Processes no_write_error w) = Ok (VArr [])
  /\ fst (Faulty.getPM2Processes log_read_only w)
     = Throw (lit "EACCES: permission denied, open '/var/www/pm2/logs/pm2-service.log'")
  /\ console (snd (Faulty.getPM2Processes log_read_only w))
     = [lit "[T0] Error getting PM2 processes: Command failed: pm2 jlist"]
  /\ fs (snd (Faulty.getPM2Processes log_read_only w)) !! logFile = Some old.
Proof.
  cbv zeta. split; [reflexivity|].
  split; [vm_compute; reflexivity|]. split; [vm_compute; reflexivity|].
  split; vm_compute; reflexivity.
Qed.

(** ** Delivery of lines by a tailer *)

Lemma with_sockets_same w : with_sockets (sockets w) w = w.
Proof. now destruct w. Qed.

Lemma deliver_nil ws w : deliver ws [] w = w.
Proof.
  unfold deliver. rewrite list_alter_id; [apply with_sockets_same|].
  intros [ ]. unfold add_sent. simpl. now rewrite app_nil_r.
Qed.

Lemma deliver_deliver ws a b w :
  deliver ws b (deliver ws a w) = deliver ws (a ++ b) w.
Proof.
  unfold deliver, with_sockets. simpl. rewrite list_alter_alter_eq. f_equal.
  apply list_alter_ext; [|reflexivity]. intros s _.
  unfold add_sent. simpl. now rewrite app_assoc.
Qed.

Lemma sendLog_open ws pn line c w s :
  sockets w !! ws = Some s -> readyState s = 1%N ->
  sendLog ws pn line c w
  = (Ok tt, deliver ws [log_message pn c line (now w)] w).
Proof.
  intros Hs Hr. unfold sendLog.
  rewrite (bind_ok _ _ w s w); [|unfold ws_get; rewrite Hs; reflexivity].
  rewrite Hr. cbn [N.eqb Pos.eqb].
  apply try_catch_ok.
  rewrite (bind_ok _ _ w (now w) w); [|reflexivity].
  unfold ws_send, ws_update, modify, deliver. do 2 f_equal.
  apply list_alter_ext; [|reflexivity]. intros s' Hs'.
  rewrite Hs in Hs'. injection Hs' as <-.
  destruct s. simpl in Hr. subst. reflexivity.
Qed.

Lemma deliver_lookup ws msgs w s :
  sockets w !! ws = Some s ->
  sockets (deliver ws msgs w) !! ws = Some (add_sent msgs s).
Proof. intros H. unfold deliver. simpl. now rewrite list_lookup_alter_eq, H. Qed.






Lemma chunks_concat cuts : forall data, concat (chunks cuts data) = data.
Proof.
  induction cuts as [|n cuts IH]; intros data; simpl.
  - apply app_nil_r.
  - rewrite IH. apply take_drop.
Qed.

(** Every way of cutting [data] into pieces is one of [chunks]. *)
Lemma chunks_complete (cs : list jsstring) (c : jsstring) :
  chunks (map length cs) (concat cs ++ c) = cs ++ [c].
Proof.
  induction cs as [|x cs IH]; simpl; [reflexivity|].
  rewrite <- app_assoc, take_app_length, drop_app_length. now rewrite IH.
Qed.







Lemma lines_text_nil_inv ls : lines_text ls = [] -> ls = [].
Proof.
  destruct ls as [|l ls]; [reflexivity|]. unfold lines_text. simpl.
  rewrite <- app_assoc. destruct l; discriminate.
Qed.




Lemma handle_all_app es1 es2 w :
  handle_all (es1 ++ es2) w = handle_all es2 (handle_all es1 w).
Proof. revert w. induction es1 as [|e es1 IH]; intros w; simpl; auto. Qed.




(** ** What the service does to an established session *)

Section Preserves.
Variable R : World -> World -> Prop.
Hypothesis R_refl : forall w, R w w.
Hypothesis R_trans : forall a b c, R a b -> R b c -> R a c.

Lemma preserves_same {A} (m : M A) :
  (forall w, snd (m w) = w) -> preserves R m.
Proof using R_refl. intros H w. rewrite H. apply R_refl. Qed.

Lemma preserves_ret {A} (a : A) : preserves R (ret a).
Proof using R_refl. now apply preserves_same. Qed.


Lemma preserves_modify f : (forall w, R w (f w)) -> preserves R (modify f).
Proof. intros H w. apply H. Qed.

Lemma preserves_bind {A B} (m : M A) (k : A -> M B) :
  preserves R m -> (forall a, preserves R (k a)) -> preserves R (bind m k).
Proof using R_trans.
  intros Hm Hk w. unfold bind. specialize (Hm w).
  destruct (m w) as [[a|e] w1]; [|exact Hm].
  eapply R_trans; [exact Hm|apply Hk].
Qed.

Lemma preserves_try_catch {A} (m : M A) (h : jsstring -> M A) :
  preserves R m -> (forall e, preserves R (h e)) -> preserves R (try_catch m h).
Proof using R_trans.
  intros Hm Hh w. unfold try_catch. specialize (Hm w).
  destruct (m w) as [[a|e] w1]; [exact Hm|].
  eapply R_trans; [exact Hm|apply Hh].
Qed.

Lemma preserves_forEach {A} (f : A -> M unit) (l : list A) :
  (forall a, preserves R (f a)) -> preserves R (forEach f l).
Proof using R_refl R_trans.
  intros Hf. induction l as [|x l IH]; simpl.
  - apply preserves_ret.
  - apply preserves_bind; auto.
Qed.

Lemma preserves_handle_all (es : list Event) :
  (forall e, e ∈ es -> preserves R (handle e)) ->
  forall w, R w (handle_all es w).
Proof using R_refl R_trans.
  induction es as [|e es IH]; intros H w; simpl; [apply R_refl|].
  eapply R_trans; [apply H; left|]. apply IH. intros e' He'. apply H. now right.
Qed.
End Preserves.









































(** ** Opening a session *)

Lemma getPM2Process_check name w :
  getPM2Process name w
  = match check_result w name with
    | Ok r => (Ok r, asked (lit "pm2 jlist") w)
    | Throw e =>
        (log (lit "Error getting PM2 process " ++ name ++ lit ": " ++ e) ;;;
         ret None) (asked (lit "pm2 jlist") w)
    end.
Proof.
  unfold getPM2Process, try_catch, check_result.
  set (body := bind _ _).
  assert (body w = (check_result w name, asked (lit "pm2 jlist") w)) as ->.
  { subst body. unfold check_result, bind at 1, execAsync.
    fold (asked (lit "pm2 jlist") w).
    destruct (supervisor w (length (execd w)) (lit "pm2 jlist")) as [out err|m];
      [|reflexivity].
    unfold bind, parse, lift, log_dir, ret, rbind. simpl.
    destruct (JSON_parse w out) as [v|e]; [|reflexivity].
    destruct (array_of v "find") as [l|e]; [|reflexivity].
    destruct (js_find _ l) as [p|e]; [|reflexivity].
    destruct (truthy p); simpl; [|reflexivity].
    change (PM2_LOG_DIR (asked (lit "pm2 jlist") w)) with (PM2_LOG_DIR w).
    destruct (detail _ p name) as [d|e]; reflexivity. }
  unfold check_result. reflexivity.
Qed.







(** ** A log file that is missing when the session opens *)













(** Sequencing, at one world. *)
Lemma bind_at (R : World -> World -> Prop) {A B} (m : M A) (k : A -> M B) w :
  (forall a b c, R a b -> R b c -> R a c) ->
  R w (snd (m w)) ->
  (forall a w1, m w = (Ok a, w1) -> R w1 (snd (k a w1))) ->
  R w (snd (bind m k w)).
Proof.
  intros Ht Hm Hk. unfold bind. destruct (m w) as [[a|e] w1]; [|exact Hm].
  eapply Ht; [exact Hm|]. now apply Hk.
Qed.







(** ** Rotation of a watched file *)






(** ** Closing a session *)

(** C2, at the failing input: a client streams both channels and
    disconnects.  [cleanup] runs twice (the listener of [streamLogs] and
    the gateway's), each time killing the stdout tailer, the only one it
    knows; the stderr tailer is never killed and goes on reading its
    file. *)
Theorem stderr_tailer_survives_close :
  let closed := handle_all [WsClose 0] both_world in
  let later := handle_all [FileAppend api_error (ln "late"); TailPoll 1 []] closed in
  tail_kills both_world = [(COut, 0); (CError, 0)]
  /\ envs both_world = [mkEnv (Some 0) []]
  /\ ready_state 0 closed = 3%N
  /\ wsConnections closed !! 0 = None
  /\ tail_kills closed = [(COut, 2); (CError, 0)]
  /\ (exists p, tails closed !! 1 = Some p
                /\ tail_read (fs (snd (handle (FileAppend api_error (ln "late")) closed))) p
                   = TailBytes (ln "late"))
  /\ tail_kills later = [(COut, 2); (CError, 0)].
Proof.
  cbv zeta. split; [vm_compute; reflexivity|]. split; [vm_compute; reflexivity|].
  split; [vm_compute; reflexivity|]. split; [vm_compute; reflexivity|].
  split; [vm_compute; reflexivity|]. split.
  - eexists. split; vm_compute; reflexivity.
  - vm_compute. reflexivity.
Qed.

(** * Further properties of the code *)

(** ** Process control beyond the existence check *)

Lemma execAsync_ok cmd w out err :
  supervisor w (length (execd w)) cmd = ExecOk out err ->
  execAsync cmd w = (Ok (out, err), asked cmd w).
Proof. intros H. unfold execAsync. now rewrite H. Qed.

Lemma execAsync_fail cmd w m :
  supervisor w (length (execd w)) cmd = ExecFail m ->
  execAsync cmd w = (Throw m, asked cmd w).
Proof. intros H. unfold execAsync. now rewrite H. Qed.

Lemma log_then {A} msg (k : M A) w :
  exists w1, logged w w1 /\ bind (log msg) (fun _ => k) w = k w1.
Proof.
  destruct (log_spec msg w) as (w1 & E & L & _).
  exists w1. split; [exact L|]. now rewrite (bind_ok _ _ w tt w1 E).
Qed.

Lemma log_result msg w : exists w1, logged w w1 /\ log msg w = (Ok tt, w1).
Proof. destruct (log_spec msg w) as (w1 & E & L & _). eauto. Qed.

(** When the process exists and the supervisor accepts the restart,
    [restartPM2Process] succeeds, and the commands handed to the
    supervisor are the query and then the restart, in this order. *)
Lemma restart_known_process name w d out err :
  getPM2Process name w = (Ok (Some d), asked (lit "pm2 jlist") w) ->
  supervisor w (S (length (execd w))) (lit "pm2 restart " ++ name)
  = ExecOk out err ->
  exists w',
    restartPM2Process name w
    = (Ok (mkResult true (lit "Process " ++ name ++ lit " restarted successfully")),
       w')
    /\ execd w' = execd w ++ [lit "pm2 jlist"; lit "pm2 restart " ++ name].
Proof.
  intros Hp Hs. unfold restartPM2Process.
  set (w0 := asked (lit "pm2 jlist") w).
  destruct (log_result (lit "Restarting PM2 process: " ++ name) w0) as (w1 & L1 & E1).
  assert (supervisor w1 (length (execd w1)) (lit "pm2 restart " ++ name)
          = ExecOk out err) as Hs1.
  { rewrite (lg_supervisor _ _ L1), (lg_execd _ _ L1).
    unfold w0. cbn [supervisor execd asked with_execd].
    rewrite length_app. cbn [length]. now rewrite Nat.add_1_r. }
  set (w2 := asked (lit "pm2 restart " ++ name) w1).
  destruct (log_result (lit "PM2 restart output for " ++ name ++ lit ": " ++ out) w2)
    as (w3 & L3 & E3).
  assert (exists w4, logged w3 w4
            /\ (if truthy_str err
                then log (lit "PM2 restart stderr for " ++ name ++ lit ": " ++ err)
                else ret tt) w3 = (Ok tt, w4)) as (w4 & L4 & E4).
  { destruct (truthy_str err).
    - apply log_result.
    - exists w3. split; [apply logged_refl|reflexivity]. }
  exists w4. split.
  - apply try_catch_ok.
    rewrite (bind_ok _ _ w (Some d) w0 Hp).
    rewrite (bind_ok _ _ w0 tt w1 E1).
    rewrite (bind_ok _ _ w1 (out, err) w2 (execAsync_ok _ _ _ _ Hs1)).
    cbn [fst snd].
    rewrite (bind_ok _ _ w2 tt w3 E3).
    rewrite (bind_ok _ _ w3 tt w4 E4). reflexivity.
  - rewrite (lg_execd _ _ L4), (lg_execd _ _ L3). unfold w2.
    cbn [execd asked with_execd]. rewrite (lg_execd _ _ L1). unfold w0.
    cbn [execd asked with_execd]. now rewrite <- app_assoc.
Qed.

(** When the process exists but the restart command fails, the
    failure is turned into a result, not an exception, and the handler
    answers it with status 404, like an unknown process: the 500 branch of
    [POST /pm2/[name]/restart] is not taken. *)
Lemma restart_command_failure name w d m :
  name <> [] ->
  getPM2Process name w = (Ok (Some d), asked (lit "pm2 jlist") w) ->
  supervisor w (S (length (execd w))) (lit "pm2 restart " ++ name) = ExecFail m ->
  exists w',
    restartPM2Process name w
    = (Ok (mkResult false (lit "Failed to restart " ++ name ++ lit ": " ++ m)), w')
    /\ post_restart name w
       = (Ok (mkResponse 404
                (VObj [("status", str "error");
                       ("message",
                        VStr (lit "Failed to restart " ++ name ++ lit ": " ++ m))])),
          w').
Proof.
  intros Hn Hp Hs.
  set (w0 := asked (lit "pm2 jlist") w).
  destruct (log_result (lit "Restarting PM2 process: " ++ name) w0) as (w1 & L1 & E1).
  assert (supervisor w1 (length (execd w1)) (lit "pm2 restart " ++ name)
          = ExecFail m) as Hs1.
  { rewrite (lg_supervisor _ _ L1), (lg_execd _ _ L1).
    unfold w0. cbn [supervisor execd asked with_execd].
    rewrite length_app. cbn [length]. now rewrite Nat.add_1_r. }
  set (w2 := asked (lit "pm2 restart " ++ name) w1).
  destruct (log_result (lit "Error restarting PM2 process " ++ name ++ lit ": " ++ m) w2)
    as (w3 & L3 & E3).
  assert (restartPM2Process name w
          = (Ok (mkResult false (lit "Failed to restart " ++ name ++ lit ": " ++ m)), w3))
    as R.
  { unfold restartPM2Process.
    eapply try_catch_throw.
    - rewrite (bind_ok _ _ w (Some d) w0 Hp).
      rewrite (bind_ok _ _ w0 tt w1 E1).
      apply bind_throw. exact (execAsync_fail _ _ _ Hs1).
    - rewrite (bind_ok _ _ w2 tt w3 E3). reflexivity. }
  exists w3. split; [exact R|].
  unfold post_restart. destruct name as [|c name]; [congruence|].
  cbn [truthy_str negb]. apply try_catch_ok.
  rewrite (bind_ok _ _ w _ w3 R). reflexivity.
Qed.



(** Start does not check existence.  On a disk that takes every write,
    whatever the name, exactly one command is handed to the supervisor,
    [pm2 start name], and no query, and the call succeeds exactly when
    the supervisor accepts the command. *)
Lemma start_issues_one_command name w :
  exists r w',
    startPM2Process name w = (Ok r, w')
    /\ execd w' = execd w ++ [lit "pm2 start " ++ name]
    /\ (success r = true <->
        exists out err,
          supervisor w (length (execd w)) (lit "pm2 start " ++ name)
          = ExecOk out err).
Proof.
  unfold startPM2Process.
  destruct (log_result (lit "Starting PM2 process: " ++ name) w) as (w1 & L1 & E1).
  set (w2 := asked (lit "pm2 start " ++ name) w1).
  destruct (supervisor w (length (execd w)) (lit "pm2 start " ++ name))
    as [out err|m] eqn:Hs.
  - assert (supervisor w1 (length (execd w1)) (lit "pm2 start " ++ name)
            = ExecOk out err) as Hs1
      by (now rewrite (lg_supervisor _ _ L1), (lg_execd _ _ L1)).
    destruct (log_result (lit "PM2 start output for " ++ name ++ lit ": " ++ out) w2)
      as (w3 & L3 & E3).
    assert (exists w4, logged w3 w4
              /\ (if truthy_str err
                  then log (lit "PM2 start stderr for " ++ name ++ lit ": " ++ err)
                  else ret tt) w3 = (Ok tt, w4)) as (w4 & L4 & E4).
    { destruct (truthy_str err).
      - apply log_result.
      - exists w3. split; [apply logged_refl|reflexivity]. }
    eexists _, w4. split; [|split].
    + apply try_catch_ok.
      rewrite (bind_ok _ _ w tt w1 E1).
      rewrite (bind_ok _ _ w1 (out, err) w2 (execAsync_ok _ _ _ _ Hs1)).
      cbn [fst snd].
      rewrite (bind_ok _ _ w2 tt w3 E3).
      rewrite (bind_ok _ _ w3 tt w4 E4). reflexivity.
    + rewrite (lg_execd _ _ L4), (lg_execd _ _ L3). unfold w2.
      cbn [execd asked with_execd]. now rewrite (lg_execd _ _ L1).
    + cbn [success]. split; eauto.
  - assert (supervisor w1 (length (execd w1)) (lit "pm2 start " ++ name)
            = ExecFail m) as Hs1
      by (now rewrite (lg_supervisor _ _ L1), (lg_execd _ _ L1)).
    destruct (log_result (lit "Error starting PM2 process " ++ name ++ lit ": " ++ m) w2)
      as (w3 & L3 & E3).
    eexists _, w3. split; [|split].
    + eapply try_catch_throw.
      * rewrite (bind_ok _ _ w tt w1 E1).
        apply bind_throw. exact (execAsync_fail _ _ _ Hs1).
      * rewrite (bind_ok _ _ w2 tt w3 E3). reflexivity.
    + rewrite (lg_execd _ _ L3). unfold w2.
      cbn [execd asked with_execd]. now rewrite (lg_execd _ _ L1).
    + cbn [success]. split; [discriminate|]. intros (out & err & H). discriminate.
Qed.


(** ** The Process Directory when the supervisor does not answer *)

Lemma check_result_query_failure w name e :
  query_failure w e -> check_result w name = Throw e.
Proof.
  unfold query_failure, check_result.
  destruct (supervisor w (length (execd w)) (lit "pm2 jlist")) as [out err|m].
  - intros ->. reflexivity.
  - intros ->. reflexivity.
Qed.

Lemma getPM2Process_query_failure w name e :
  query_failure w e -> exists w', getPM2Process name w = (Ok None, w').
Proof.
  intros Q. rewrite getPM2Process_check, (check_result_query_failure _ _ _ Q).
  destruct (log_result (lit "Error getting PM2 process " ++ name ++ lit ": " ++ e)
              (asked (lit "pm2 jlist") w)) as (w1 & _ & E).
  exists w1. now rewrite (bind_ok _ _ _ tt w1 E).
Qed.

(** A supervisor that does not answer is reported as a missing
    process: the detail and logs endpoints answer 404 "Service ... not
    found", restart answers 404 "Process ... not found"; none of them
    answers 500. *)
Lemma supervisor_down_is_not_found w name e :
  name <> [] -> query_failure w e ->
  exists w',
    get_detail name w
    = (Ok (mkResponse 404
             (VObj [("status", str "error");
                    ("message", VStr (lit "Service " ++ name ++ lit " not found"))])),
       w')
    /\ get_logs name w
       = (Ok (mkResponse 404
                (VObj [("status", str "error");
                       ("message", VStr (lit "Service " ++ name ++ lit " not found"))])),
          w')
    /\ post_restart name w
       = (Ok (mkResponse 404
                (VObj [("status", str "error");
                       ("message", VStr (lit "Process " ++ name ++ lit " not found"))])),
          w').
Proof.
  intros Hn Q. destruct (getPM2Process_query_failure w name e Q) as (w' & E).
  exists w'. unfold get_detail, get_logs, post_restart.
  destruct name as [|c name]; [congruence|]. cbn [truthy_str negb].
  split; [|split].
  - apply try_catch_ok. rewrite (bind_ok _ _ w None w' E). reflexivity.
  - apply try_catch_ok. rewrite (bind_ok _ _ w None w' E). reflexivity.
  - apply try_catch_ok.
    assert (restartPM2Process (c :: name) w
            = (Ok (mkResult false (lit "Process " ++ c :: name ++ lit " not found")), w'))
      as R.
    { unfold restartPM2Process. apply try_catch_ok.
      rewrite (bind_ok _ _ w None w' E). reflexivity. }
    rewrite (bind_ok _ _ w _ w' R). reflexivity.
Qed.

(** On a disk that takes every write, [GET /pm2] answers 200 with status
    success; when the supervisor query fails the list of services is
    empty. *)
Lemma list_always_answers w :
  exists services w',
    get_list w
    = (Ok (mkResponse 200
             (VObj [("status", str "success");
                    ("message", str "PM2 management service is running");
                    ("services", services);
                    ("endpoints", endpoints)])), w')
    /\ forall e, query_failure w e -> services = VArr [].
Proof.
  destruct (getPM2Processes_never_throws w) as (v & w' & E).
  exists v, w'. split.
  - unfold get_list. apply try_catch_ok.
    rewrite (bind_ok _ _ w v w' E). reflexivity.
  - intros e Q. unfold getPM2Processes in E.
    assert (exists w1, bind (execAsync (lit "pm2 jlist"))
                         (fun r => processes <- parse (fst r) ;;
                                   l <- lift (array_of processes "map") ;;
                                   res <- lift (js_map summary l) ;;
                                   ret (VArr res)) w = (Throw e, w1))
      as (w1 & Hb).
    { unfold query_failure in Q.
      destruct (supervisor w (length (execd w)) (lit "pm2 jlist")) as [out err|m] eqn:S.
      - exists (asked (lit "pm2 jlist") w).
        rewrite (bind_ok _ _ w (out, err) _ (execAsync_ok _ _ _ _ S)).
        apply bind_throw. unfold parse. cbn [fst].
        change (JSON_parse (asked (lit "pm2 jlist") w)) with (JSON_parse w).
        now rewrite Q.
      - subst e. exists (asked (lit "pm2 jlist") w).
        apply bind_throw. now apply execAsync_fail. }
    unfold try_catch in E. rewrite Hb in E.
    destruct (log_result (lit "Error getting PM2 processes: " ++ e) w1)
      as (w2 & _ & E2).
    rewrite (bind_ok _ _ w1 tt w2 E2) in E. now injection E.
Qed.

(** ** The entries of the listing *)




(** A process entry without [pm2_env] and [monit] is listed with the
    defaults: status and mode 'unknown'; uptime, memory, cpu and restarts
    0. *)
Lemma summary_defaults props :
  assoc "pm2_env" props = None -> assoc "monit" props = None ->
  summary (VObj props)
  = Ok (VObj [("name", default VUndef (assoc "name" props));
              ("status", str "unknown");
              ("uptime", VNum 0);
              ("memory", VNum 0);
              ("cpu", VNum 0);
              ("pid", default VUndef (assoc "pid" props));
              ("restarts", VNum 0);
              ("mode", str "unknown")]).
Proof.
  intros He Hm. unfold summary, rbind, get_prop. rewrite He, Hm. reflexivity.
Qed.

Lemma js_map_null l : VNull ∈ l -> exists e, js_map summary l = Throw e.
Proof.
  induction l as [|p l IH]; intros Hin; [inversion Hin|]. simpl.
  destruct (summary p) as [v|e] eqn:Hs; [|eauto].
  apply elem_of_cons in Hin as [<-|Hin]; [discriminate|].
  destruct (IH Hin) as (e & ->). eauto.
Qed.

(** One null entry in what the supervisor prints makes the whole
    listing fail inside [getPM2Processes]: the failure is logged and the
    result is the empty array, the remaining processes are not listed. *)
Lemma null_entry_empties_listing w out err l :
  supervisor w (length (execd w)) (lit "pm2 jlist") = ExecOk out err ->
  JSON_parse w out = Ok (VArr l) ->
  VNull ∈ l ->
  exists w', getPM2Processes w = (Ok (VArr []), w')
             /\ length (console w') > length (console w).
Proof.
  intros Hs Hj Hin. destruct (js_map_null l Hin) as (e & He).
  destruct (log_spec (lit "Error getting PM2 processes: " ++ e)
              (asked (lit "pm2 jlist") w)) as (w' & E & _ & (extra & C) & _).
  exists w'. split.
  - unfold getPM2Processes. eapply try_catch_throw.
    + rewrite (bind_ok _ _ w (out, err) _ (execAsync_ok _ _ _ _ Hs)).
      rewrite (bind_ok _ _ _ (VArr l) (asked (lit "pm2 jlist") w));
        [|unfold parse; cbn [fst];
          change (JSON_parse (asked (lit "pm2 jlist") w)) with (JSON_parse w);
          now rewrite Hj].
      rewrite (bind_ok _ _ _ l (asked (lit "pm2 jlist") w)); [|reflexivity].
      apply bind_throw. unfold lift. now rewrite He.
    + rewrite (bind_ok _ _ _ tt w' E). reflexivity.
  - rewrite C. cbn [console asked with_execd]. rewrite length_app. simpl. lia.
Qed.

(** ** The result of the existence check *)

Lemma js_find_found pred l p :
  js_find pred l = Ok p -> truthy p = true -> p ∈ l /\ pred p = Ok true.
Proof.
  induction l as [|q l IH]; simpl.
  - intros [= <-]. discriminate.
  - destruct (pred q) as [[|]|e] eqn:Hq; [| |discriminate].
    + intros [= <-] _. split; [left|exact Hq].
    + intros H T. destruct (IH H T) as [Hin Hp]. split; [now right|exact Hp].
Qed.

Lemma strict_eq_str_true v s : strict_eq_str v s = true -> v = VStr s.
Proof.
  destruct v; try discriminate. simpl. intros H.
  apply bool_decide_eq_true in H. now subst.
Qed.

Lemma detail_name dir process name d :
  detail dir process name = Ok d -> get_prop process "name" = Ok (p_name d).
Proof.
  unfold detail.
  destruct (get_prop process "name") as [n|e]; [|discriminate]. cbn [rbind].
  repeat match goal with
         | |- context [rbind ?r _] =>
             let E := fresh "E" in destruct r eqn:E; simpl; [|discriminate]
         end.
  intros [= <-]. reflexivity.
Qed.

(** X13: a process that [getPM2Process] returns is one of the entries the
    supervisor printed, its name is the requested name, and its two log
    paths are built from the log directory and that name (they are not
    read from the supervisor); nothing was logged on the way. *)
Theorem found_process_is_named name w d w' :
  getPM2Process name w = (Ok (Some d), w') ->
  p_name d = VStr name
  /\ out_log d = outLogPath w name
  /\ error_log d = errorLogPath w name
  /\ w' = asked (lit "pm2 jlist") w.
Proof.
  intros E.
  destruct (getPM2Process_spec name w) as (r & w1 & E1 & _ & Hd).
  rewrite E in E1. injection E1 as <- <-.
  destruct (Hd d eq_refl) as (-> & Ho & He).
  split; [|auto].
  rewrite getPM2Process_check in E. unfold check_result in E.
  destruct (supervisor w (length (execd w)) (lit "pm2 jlist")) as [out err|m].
  2:{ destruct (log_result (lit "Error getting PM2 process " ++ name ++ lit ": " ++ m)
                  (asked (lit "pm2 jlist") w)) as (w2 & _ & E2).
      rewrite (bind_ok _ _ _ tt w2 E2) in E. discriminate. }
  assert (forall e, (log (lit "Error getting PM2 process " ++ name ++ lit ": " ++ e) ;;;
                     ret (@None ProcessDetail)) (asked (lit "pm2 jlist") w)
                    <> (Ok (Some d), asked (lit "pm2 jlist") w)) as Hno.
  { intros e. destruct (log_result (lit "Error getting PM2 process " ++ name
                                      ++ lit ": " ++ e)
                          (asked (lit "pm2 jlist") w)) as (w2 & _ & E2).
    rewrite (bind_ok _ _ _ tt w2 E2). discriminate. }
  unfold rbind in E.
  destruct (JSON_parse w out) as [v|e]; [|now apply Hno in E].
  destruct (array_of v "find") as [l|e]; [|now apply Hno in E].
  destruct (js_find _ l) as [p|e] eqn:Hfind; [|now apply Hno in E].
  destruct (truthy p) eqn:Ht; cbn [negb] in E; [|discriminate].
  destruct (detail (PM2_LOG_DIR w) p name) as [d'|e] eqn:Hdet; [|now apply Hno in E].
  injection E as <-.
  apply js_find_found in Hfind as [_ Hpred]; [|exact Ht].
  apply detail_name in Hdet. rewrite Hdet in Hpred. cbn [rbind] in Hpred.
  injection Hpred as Hpred. now apply strict_eq_str_true.
Qed.

Lemma found_process_is_named_witness :
  exists d w',
    getPM2Process (lit "api") (sample_world []) = (Ok (Some d), w')
    /\ p_name d = str "api"
    /\ out_log d = lit "/home/u/.pm2/logs/api-out.log".
Proof.
  set (r := getPM2Process (lit "api") (sample_world [])).
  assert (r = (Ok (Some (match fst r with Ok (Some d) => d
                         | _ => mkDetail VNull VNull VNull VNull VNull VNull VNull
                                         VNull VNull [] [] end)), snd r)) as E
    by (vm_compute; reflexivity).
  destruct (found_process_is_named _ _ _ _ E) as (Hn & Ho & _).
  eexists _, _. split; [exact E|]. split; [exact Hn|]. rewrite Ho. reflexivity.
Defined.

(** ** Rotation of the service log *)

Lemma split_segments_no_NL s : Forall (fun l => NL ∉ l) (split NL s).
Proof.
  induction s as [|c s IH]; simpl.
  - constructor; [|constructor]. intros H. inversion H.
  - destruct (N.eqb_spec c NL) as [->|Hc].
    + constructor; [|exact IH]. intros H. inversion H.
    + destruct (split NL s) as [|seg rest]; [|inversion IH; subst].
      * constructor; [|constructor]. intros H.
        apply elem_of_cons in H as [H|H]; [congruence|inversion H].
      * constructor; [|assumption]. intros H.
        apply elem_of_cons in H as [H|H]; [congruence|contradiction].
Qed.

Lemma nonblank_lines_well_formed s : Forall well_formed (nonblank_lines s).
Proof.
  apply Forall_forall. intros l Hl. split.
  - unfold nonblank_lines in Hl. apply list_elem_of_In, filter_In in Hl as [Hl _].
    apply list_elem_of_In in Hl.
    exact (proj1 (Forall_forall _ _) (split_segments_no_NL s) l Hl).
  - now apply nonblank_lines_have_text in Hl.
Qed.

Lemma join_nl_lines_text ls : ls <> [] -> join_nl ls ++ [NL] = lines_text ls.
Proof.
  induction ls as [|l ls IH]; [congruence|]. intros _.
  destruct ls as [|l' ls].
  - unfold lines_text. simpl. now rewrite app_nil_r.
  - change (join_nl (l :: l' :: ls)) with (l ++ NL :: join_nl (l' :: ls)).
    rewrite <- app_assoc. cbn [app]. rewrite IH by discriminate.
    unfold lines_text. cbn [map concat].
    rewrite <- (app_assoc l [NL] _). reflexivity.
Qed.

(** When the service log holds more than 5000 lines with text,
    [rotateLogs] rewrites it in place so that it holds exactly the last
    5000 of them, in order; the file keeps its identity and nothing
    else changes but the console. *)
Lemma rotateLogs_keeps_last_lines w f :
  fs w !! logFile = Some f -> readable f = true ->
  MAX_LOG_LINES < length (nonblank_lines (content f)) ->
  exists w' f',
    rotateLogs w = (Ok tt, w')
    /\ fs w' !! logFile = Some f'
    /\ ino f' = ino f
    /\ nonblank_lines (content f')
       = slice_last MAX_LOG_LINES (nonblank_lines (content f))
    /\ length (nonblank_lines (content f')) = MAX_LOG_LINES
    /\ logged w w'.
Proof.
  intros Hf Hr Hlen.
  set (keep := slice_last MAX_LOG_LINES (nonblank_lines (content f))).
  assert (length keep = MAX_LOG_LINES) as Hk.
  { unfold keep, slice_last. rewrite length_drop. lia. }
  assert (keep <> []) as Hne.
  { intros H. rewrite H in Hk. unfold MAX_LOG_LINES in Hk. discriminate. }
  assert (Forall well_formed keep) as Hwf.
  { unfold keep, slice_last. apply Forall_drop, nonblank_lines_well_formed. }
  set (w1 := with_fs (<[logFile := mkFile (ino f) (readable f)
                                      (join_nl keep ++ [NL])]> (fs w)) w).
  set (w2 := with_console
               (console w1 ++ [lit "[" ++ now w1
                                 ++ lit "] Log rotated: kept last 5000 lines"]) w1).
  exists w2, (mkFile (ino f) (readable f) (join_nl keep ++ [NL])).
  split; [|split; [|split; [|split; [|split]]]].
  - unfold rotateLogs. apply try_catch_ok.
    rewrite (bind_ok _ _ w true w);
      [|unfold existsSync; rewrite Hf; reflexivity].
    cbn [negb].
    rewrite (bind_ok _ _ w (content f) w);
      [|rewrite readFileSync_spec, Hf, Hr; reflexivity].
    cbv zeta. rewrite (proj2 (Nat.ltb_lt _ _) Hlen).
    fold keep.
    rewrite (bind_ok _ _ w tt w1);
      [|unfold writeFileSync; rewrite Hf; reflexivity].
    rewrite (bind_ok _ _ w1 (now w1) w1); [|reflexivity].
    reflexivity.
  - unfold w2, w1. cbn [fs with_console with_fs]. apply lookup_insert_eq.
  - reflexivity.
  - cbn [content]. rewrite join_nl_lines_text by assumption.
    now apply nonblank_lines_whole.
  - cbn [content]. rewrite join_nl_lines_text by assumption.
    now rewrite nonblank_lines_whole.
  - unfold w2, w1. constructor; cbn; try reflexivity.
    intros p Hp. now rewrite lookup_insert_ne.
Qed.

(** ** Keep-alive *)

(** X17: on an open socket whose session is set up, a client message
    that parses to an object with [type: 'ping'] is answered with exactly
    one pong; any other message (another type, no type, a value that is
    not an object, text that is not JSON) changes nothing: no reply, the
    socket is not closed, nothing is logged. *)
Theorem ping_is_answered_once w ws s data :
  sockets w !! ws = Some s -> readyState s = 1%N -> on_message s = true ->
  ((exists props, JSON_parse w data = Ok (VObj props)
                  /\ assoc "type" props = Some (VStr (lit "ping"))) ->
   snd (handle (WsMessage ws data) w) = deliver ws [pong] w)
  /\ ((forall props, JSON_parse w data = Ok (VObj props) ->
                     assoc "type" props <> Some (VStr (lit "ping"))) ->
      snd (handle (WsMessage ws data) w) = w).
Proof.
  intros Hs Hr Hm. cbn [handle].
  rewrite (bind_ok _ _ w s w); [|unfold ws_get; rewrite Hs; reflexivity].
  rewrite Hm.
  assert (ws_send ws pong w = (Ok tt, deliver ws [pong] w)) as Hsend.
  { unfold ws_send, ws_update, modify, deliver. do 2 f_equal.
    apply list_alter_ext; [|reflexivity]. intros s' Hs'.
    rewrite Hs in Hs'. injection Hs' as <-.
    destruct s. simpl in Hr. subst. reflexivity. }
  assert (snd (on_ws_message ws data w)
          = match JSON_parse w data with
            | Ok v => match get_prop v "type" with
                      | Ok t => if strict_eq_str t (lit "ping")
                                then deliver ws [pong] w else w
                      | Throw _ => w
                      end
            | Throw _ => w
            end) as ->.
  { unfold on_ws_message, try_catch, bind, parse, lift. fold pong.
    destruct (JSON_parse w data) as [v|e]; [|reflexivity].
    destruct (get_prop v "type") as [t|e]; [|reflexivity].
    destruct (strict_eq_str t (lit "ping")); [|reflexivity].
    now rewrite Hsend. }
  split.
  - intros (props & Hj & Ht). rewrite Hj. unfold get_prop. rewrite Ht.
    unfold id. cbn [default strict_eq_str]. now rewrite bool_decide_eq_true_2.
  - intros Hno. destruct (JSON_parse w data) as [v|e] eqn:Hj; [|reflexivity].
    destruct (get_prop v "type") as [t|e] eqn:Hg; [|reflexivity].
    destruct (strict_eq_str t (lit "ping")) eqn:Hp; [|reflexivity].
    exfalso. apply strict_eq_str_true in Hp. subst t.
    destruct v; try discriminate. cbn [get_prop] in Hg.
    apply (Hno props eq_refl).
    destruct (assoc "type" props) as [j|]; [|discriminate].
    change (Ok j = Ok (VStr (lit "ping"))) in Hg. congruence.
Qed.

Lemma ping_is_answered_once_witness :
  sent_to 0
    (snd (handle (WsMessage 0 (lit "PING"))
            (mkWorld None (fun _ => Ok (VObj [("type", str "ping")]))
                     sample_supervisor [] ∅ 100 (lit "T0") [] [] []
                     [mkWs 1 [] None true [] []] ∅ [])))
  = [pong].
Proof.
  set (w := mkWorld _ _ _ _ _ _ _ _ _ _ _ _ _).
  destruct (ping_is_answered_once w 0 (mkWs 1 [] None true [] []) (lit "PING")
              eq_refl eq_refl eq_refl) as [H _].
  rewrite H; [reflexivity|].
  exists [("type", str "ping")]. split; reflexivity.
Defined.

(** ** Data for a socket that is not open *)

(** X18: once the socket is not OPEN, what a tailer prints is dropped:
    the stdout listener sends nothing, logs nothing, and leaves the world
    as it is. *)
Theorem data_for_closed_socket_is_dropped w h p s data :
  tails w !! h = Some p ->
  sockets w !! t_ws p = Some s -> readyState s <> 1%N ->
  handle (TailStdout h data) w = (Ok tt, w).
Proof.
  intros Hp Hs Hr. cbn [handle].
  rewrite (bind_ok _ _ w w w); [|reflexivity]. rewrite Hp.
  unfold on_tail_data. induction (nonblank_lines data) as [|l ls IH];
    [reflexivity|].
  cbn [forEach].
  rewrite (bind_ok _ _ w tt w); [exact IH|].
  unfold sendLog.
  rewrite (bind_ok _ _ w s w); [|unfold ws_get; rewrite Hs; reflexivity].
  destruct (N.eqb_spec (readyState s) 1); [contradiction|reflexivity].
Qed.

Lemma data_for_closed_socket_is_dropped_witness :
  let w := handle_all [WsClose 0] streaming_world in
  handle (TailStdout 0 (ln "late")) w = (Ok tt, w).
Proof.
  cbv zeta.
  apply (data_for_closed_socket_is_dropped _ 0
           (default api_tail (tails (handle_all [WsClose 0] streaming_world) !! 0))
           (default CLOSED_SOCKET (sockets (handle_all [WsClose 0] streaming_world) !! 0))).
  - vm_compute. reflexivity.
  - vm_compute. reflexivity.
  - vm_compute. discriminate.
Defined.

(** ** Connections the gateway refuses *)




(** X20: a connection without a process name is closed with code 1008
    at once: the supervisor is not asked, nothing is logged and nothing is
    sent. *)
Theorem nameless_connection_is_closed w qtype gone :
  let w' := snd (handle (Connection [] qtype gone) w) in
  sockets w'
  = sockets w ++ [mkWs 2 [] (Some (1008%N, lit "Process name is required"))
                       false [] []]
  /\ execd w' = execd w
  /\ console w' = console w
  /\ fs w' = fs w
  /\ tails w' = tails w.
Proof.
  cbv zeta. cbn [handle].
  rewrite (bind_ok _ _ w (length (sockets w)) (snd (new_socket w))); [|reflexivity].
  unfold on_connection. cbn [truthy_str negb].
  unfold ws_close, ws_update, modify, new_socket.
  cbn [snd sockets execd console fs tails with_sockets].
  split; [|auto].
  apply list_eq. intros i.
  destruct (decide (i = length (sockets w))) as [->|Hi].
  - rewrite list_lookup_alter_eq, !lookup_app_r by lia.
    now rewrite Nat.sub_diag.
  - rewrite list_lookup_alter_ne by congruence.
    destruct (decide (i < length (sockets w))).
    + now rewrite !lookup_app_l.
    + rewrite !lookup_app_r by lia.
      destruct (i - length (sockets w)) as [|k] eqn:Hk; [lia|reflexivity].
Qed.
(** ** The service while its log takes every write *)

Lemma bind_ext {A B} (m m' : M A) (k k' : A -> M B) w :
  m w = m' w -> (forall a v, k a v = k' a v) -> bind m k w = bind m' k' w.
Proof.
  intros Hm Hk. unfold bind. rewrite Hm.
  destruct (m' w) as [[a|e] v]; [apply Hk|reflexivity].
Qed.

Lemma try_catch_ext {A} (m m' : M A) (h h' : jsstring -> M A) w :
  m w = m' w -> (forall e v, h e v = h' e v) ->
  try_catch m h w = try_catch m' h' w.
Proof.
  intros Hm Hh. unfold try_catch. rewrite Hm.
  destruct (m' w) as [[a|e] v]; [reflexivity|apply Hh].
Qed.

Section LogTaken.
Variable write_error : jsstring -> jsstring -> option jsstring.
Hypothesis taken : log_taken write_error.

Lemma taken_rotateLogs w : Faulty.rotateLogs write_error w = rotateLogs w.
Proof using taken.
  unfold Faulty.rotateLogs, rotateLogs.
  apply try_catch_ext; [|reflexivity].
  apply bind_ext; [reflexivity|]. intros ex v. destruct (negb ex); [reflexivity|].
  apply bind_ext; [reflexivity|]. intros c v'. cbv zeta.
  destruct (_ <? _); [|reflexivity].
  apply bind_ext; [|reflexivity].
  unfold Faulty.writeFileSync. now rewrite taken.
Qed.

Lemma taken_log msg w : Faulty.log write_error msg w = log msg w.
Proof using taken.
  unfold Faulty.log, log.
  apply bind_ext; [reflexivity|]. intros t v. cbv zeta.
  apply bind_ext; [reflexivity|]. intros _ v1.
  apply bind_ext; [apply taken_rotateLogs|]. intros _ v2.
  unfold Faulty.appendFileSync. now rewrite taken.
Qed.

Ltac taken_step :=
  lazymatch goal with
  | |- try_catch _ _ _ = try_catch _ _ _ =>
      apply try_catch_ext; [|intros ? ?]
  | |- bind _ _ _ = bind _ _ _ => apply bind_ext; [|intros ? ?]
  | |- Faulty.log _ _ _ = log _ _ => apply taken_log
  | |- (if ?b then _ else _) _ = _ => destruct b
  | |- (match ?o with Some _ => _ | None => _ end) _ = _ => destruct o
  | |- _ => reflexivity
  end.

Lemma taken_getPM2Processes w :
  Faulty.getPM2Processes write_error w = getPM2Processes w.
Proof using taken. unfold Faulty.getPM2Processes, getPM2Processes. repeat taken_step. Qed.

Lemma taken_getPM2Process name w :
  Faulty.getPM2Process write_error name w = getPM2Process name w.
Proof using taken. unfold Faulty.getPM2Process, getPM2Process. repeat taken_step. Qed.

Lemma taken_restartPM2Process name w :
  Faulty.restartPM2Process write_error name w = restartPM2Process name w.
Proof using taken.
  unfold Faulty.restartPM2Process, restartPM2Process.
  taken_step; [|repeat taken_step].
  taken_step; [apply taken_getPM2Process|]. repeat taken_step.
Qed.

Lemma taken_stopPM2Process name w :
  Faulty.stopPM2Process write_error name w = stopPM2Process name w.
Proof using taken.
  unfold Faulty.stopPM2Process, stopPM2Process.
  taken_step; [|repeat taken_step].
  taken_step; [apply taken_getPM2Process|]. repeat taken_step.
Qed.

Lemma taken_startPM2Process name w :
  Faulty.startPM2Process write_error name w = startPM2Process name w.
Proof using taken.
  unfold Faulty.startPM2Process, startPM2Process. repeat taken_step.
Qed.

Lemma taken_get_list w : Faulty.get_list write_error w = get_list w.
Proof using taken.
  unfold Faulty.get_list, get_list.
  taken_step; [|repeat taken_step].
  taken_step; [apply taken_getPM2Processes|reflexivity].
Qed.

Lemma taken_get_detail name w :
  Faulty.get_detail write_error name w = get_detail name w.
Proof using taken.
  unfold Faulty.get_detail, get_detail. destruct (negb _); [reflexivity|].
  taken_step; [|repeat taken_step].
  taken_step; [apply taken_getPM2Process|]. repeat taken_step.
Qed.

Lemma taken_read_log_entries c path what w :
  Faulty.read_log_entries write_error c path what w
  = read_log_entries c path what w.
Proof using taken.
  unfold Faulty.read_log_entries, read_log_entries. repeat taken_step.
Qed.

Lemma taken_get_logs name w :
  Faulty.get_logs write_error name w = get_logs name w.
Proof using taken.
  unfold Faulty.get_logs, get_logs. destruct (negb _); [reflexivity|].
  taken_step; [|repeat taken_step].
  taken_step; [apply taken_getPM2Process|]. destruct a; [|reflexivity].
  cbv zeta.
  taken_step; [apply taken_read_log_entries|].
  taken_step; [apply taken_read_log_entries|]. reflexivity.
Qed.

Lemma taken_post_restart name w :
  Faulty.post_restart write_error name w = post_restart name w.
Proof using taken.
  unfold Faulty.post_restart, post_restart. destruct (negb _); [reflexivity|].
  taken_step; [|repeat taken_step].
  taken_step; [apply taken_restartPM2Process|reflexivity].
Qed.

Lemma taken_post_stop name w :
  Faulty.post_stop write_error name w = post_stop name w.
Proof using taken.
  unfold Faulty.post_stop, post_stop. destruct (negb _); [reflexivity|].
  taken_step; [|repeat taken_step].
  taken_step; [apply taken_stopPM2Process|reflexivity].
Qed.


End LogTaken.

(** ** Process control and the listing, with writes that may be refused *)

(** X1: when the process exists and the supervisor accepts the restart,
    [restartPM2Process] succeeds, and the commands handed to the
    supervisor are the query and then the restart, in this order;
    provided the service log takes every write. *)
Theorem restart_runs_query_then_restart write_error name w d out err :
  log_taken write_error ->
  Faulty.getPM2Process write_error name w
  = (Ok (Some d), asked (lit "pm2 jlist") w) ->
  supervisor w (S (length (execd w))) (lit "pm2 restart " ++ name)
  = ExecOk out err ->
  exists w',
    Faulty.restartPM2Process write_error name w
    = (Ok (mkResult true (lit "Process " ++ name ++ lit " restarted successfully")),
       w')
    /\ execd w' = execd w ++ [lit "pm2 jlist"; lit "pm2 restart " ++ name].
Proof.
  intros T Hg Hs. rewrite taken_getPM2Process in Hg by assumption.
  rewrite taken_restartPM2Process by assumption.
  exact (restart_known_process name w d out err Hg Hs).
Qed.

Lemma restart_runs_query_then_restart_witness :
  exists w',
    Faulty.restartPM2Process no_write_error (lit "api") (sample_world [])
    = (Ok (mkResult true (lit "Process api restarted successfully")), w')
    /\ execd w' = [lit "pm2 jlist"; lit "pm2 restart api"].
Proof.
  destruct (restart_runs_query_then_restart no_write_error (lit "api")
              (sample_world [])
              (match fst (getPM2Process (lit "api") (sample_world []))
               with Ok (Some d) => d
               | _ => mkDetail VNull VNull VNull VNull VNull VNull VNull VNull VNull [] []
               end) (lit "done") [])
    as (w' & E & X).
  - intros data. reflexivity.
  - vm_compute. reflexivity.
  - reflexivity.
  - exists w'. split; [exact E|exact X].
Defined.

(** X2: when the process exists but the restart command fails, the result is
    a failure that carries the supervisor's message, and the handler
    answers 404, the status of a missing process; provided the service
    log takes every write. *)
Theorem failed_restart_is_404 write_error name w d m :
  log_taken write_error ->
  name <> [] ->
  Faulty.getPM2Process write_error name w
  = (Ok (Some d), asked (lit "pm2 jlist") w) ->
  supervisor w (S (length (execd w))) (lit "pm2 restart " ++ name) = ExecFail m ->
  exists w',
    Faulty.restartPM2Process write_error name w
    = (Ok (mkResult false (lit "Failed to restart " ++ name ++ lit ": " ++ m)), w')
    /\ Faulty.post_restart write_error name w
       = (Ok (mkResponse 404
                (VObj [("status", str "error");
                       ("message",
                        VStr (lit "Failed to restart " ++ name ++ lit ": " ++ m))])),
          w').
Proof.
  intros T Hn Hg Hs. rewrite taken_getPM2Process in Hg by assumption.
  rewrite taken_restartPM2Process, taken_post_restart by assumption.
  exact (restart_command_failure name w d m Hn Hg Hs).
Qed.

Lemma failed_restart_is_404_witness :
  exists w',
    Faulty.post_restart no_write_error (lit "api")
      (world_with (fun n cmd => if Nat.eqb n 0 then sample_supervisor n cmd
                                else ExecFail (lit "boom")) [])
    = (Ok (mkResponse 404
             (VObj [("status", str "error");
                    ("message", VStr (lit "Failed to restart api: boom"))])), w').
Proof.
  set (w := world_with _ []).
  destruct (failed_restart_is_404 no_write_error (lit "api") w
              (match fst (getPM2Process (lit "api") w)
               with Ok (Some d) => d
               | _ => mkDetail VNull VNull VNull VNull VNull VNull VNull VNull VNull [] []
               end) (lit "boom"))
    as (w' & _ & E).
  - intros data. reflexivity.
  - discriminate.
  - vm_compute. reflexivity.
  - reflexivity.
  - exists w'. exact E.
Defined.

(** X4: start does not check existence.  Whatever the name, while the
    service log takes every write, exactly one command is handed to the
    supervisor, [pm2 start name], and no query; the call returns, and it
    succeeds exactly when the supervisor accepts the command. *)
Theorem start_runs_one_command write_error name w :
  log_taken write_error ->
  exists r w',
    Faulty.startPM2Process write_error name w = (Ok r, w')
    /\ execd w' = execd w ++ [lit "pm2 start " ++ name]
    /\ (success r = true <->
        exists out err,
          supervisor w (length (execd w)) (lit "pm2 start " ++ name)
          = ExecOk out err).
Proof.
  intros T. rewrite taken_startPM2Process by assumption.
  apply start_issues_one_command.
Qed.

Lemma start_runs_one_command_witness :
  exists r w',
    Faulty.startPM2Process no_write_error (lit "ghost") (sample_world [])
    = (Ok r, w')
    /\ execd w' = [lit "pm2 start ghost"].
Proof.
  destruct (start_runs_one_command no_write_error (lit "ghost") (sample_world []))
    as (r & w' & E & X & _).
  - intros data. reflexivity.
  - exists r, w'. split; [exact E|exact X].
Defined.

Lemma faulty_log_refused write_error msg w :
  log_refused write_error ->
  exists x w1,
    Faulty.log write_error msg w = (Throw x, w1)
    /\ logged w w1
    /\ write_error logFile (log_line w msg ++ [NL]) = Some x.
Proof.
  intros R.
  destruct (faulty_log_spec write_error msg w) as (w1 & L & _ & H).
  destruct (R (log_line w msg ++ [NL])) as [x Hx]. rewrite Hx in H.
  exists x, w1. auto.
Qed.





(** X7: a supervisor that does not answer is reported as a missing process:
    the detail and logs endpoints answer 404 "Service ... not found",
    restart answers 404 "Process ... not found"; none of them answers
    500; provided the service log takes every write. *)
Theorem down_supervisor_is_not_found write_error w name e :
  log_taken write_error ->
  name <> [] -> query_failure w e ->
  exists w',
    Faulty.get_detail write_error name w
    = (Ok (mkResponse 404
             (VObj [("status", str "error");
                    ("message", VStr (lit "Service " ++ name ++ lit " not found"))])),
       w')
    /\ Faulty.get_logs write_error name w
       = (Ok (mkResponse 404
                (VObj [("status", str "error");
                       ("message", VStr (lit "Service " ++ name ++ lit " not found"))])),
          w')
    /\ Faulty.post_restart write_error name w
       = (Ok (mkResponse 404
                (VObj [("status", str "error");
                       ("message", VStr (lit "Process " ++ name ++ lit " not found"))])),
          w').
Proof.
  intros T Hn Q.
  rewrite taken_get_detail, taken_get_logs, taken_post_restart by assumption.
  exact (supervisor_down_is_not_found w name e Hn Q).
Qed.

Lemma down_supervisor_is_not_found_witness :
  exists w',
    Faulty.get_detail no_write_error (lit "api") (world_with down_supervisor [])
    = (Ok (mkResponse 404
             (VObj [("status", str "error");
                    ("message", VStr (lit "Service api not found"))])), w').
Proof.
  destruct (down_supervisor_is_not_found no_write_error
              (world_with down_supervisor [])
              (lit "api") (lit "Command failed: pm2 jlist"))
    as (w' & E & _).
  - intros data. reflexivity.
  - discriminate.
  - reflexivity.
  - exists w'. exact E.
Defined.

(** X8: while the service log takes every write, [GET /pm2] answers 200 with
    status success whatever the supervisor does; when the supervisor
    query fails the list of services is empty. *)
Theorem list_answers_200 write_error w :
  log_taken write_error ->
  exists services w',
    Faulty.get_list write_error w
    = (Ok (mkResponse 200
             (VObj [("status", str "success");
                    ("message", str "PM2 management service is running");
                    ("services", services);
                    ("endpoints", endpoints)])), w')
    /\ forall e, query_failure w e -> services = VArr [].
Proof.
  intros T. rewrite taken_get_list by assumption. apply list_always_answers.
Qed.

Lemma list_answers_200_witness :
  exists w',
    Faulty.get_list no_write_error (world_with down_supervisor [])
    = (Ok (mkResponse 200
             (VObj [("status", str "success");
                    ("message", str "PM2 management service is running");
                    ("services", VArr []);
                    ("endpoints", endpoints)])), w').
Proof.
  destruct (list_answers_200 no_write_error (world_with down_supervisor []))
    as (services & w' & E & H).
  - intros data. reflexivity.
  - exists w'. rewrite E.
    now rewrite (H (lit "Command failed: pm2 jlist") eq_refl).
Defined.

(** X9: when the supervisor query fails and no write to the service log is
    taken, [GET /pm2] sends no response: the error of the write leaves
    [getPM2Processes], and the catch block of the handler calls [log]
    before it would answer 500. *)
Theorem list_needs_the_log_when_query_fails write_error w e :
  log_refused write_error ->
  query_failure w e ->
  exists x w',
    Faulty.get_list write_error w = (Throw x, w')
    /\ (exists data, write_error logFile data = Some x).
Proof.
  intros R Q.
  destruct (faulty_log_refused write_error
              (lit "Error getting PM2 processes: " ++ e)
              (asked (lit "pm2 jlist") w) R) as (x1 & w1 & L1 & _).
  assert (Faulty.getPM2Processes write_error w = (Throw x1, w1)) as E1.
  { unfold Faulty.getPM2Processes.
    eapply try_catch_throw; [exact (query_failure_thrown w e Q)|].
    now apply bind_throw. }
  destruct (faulty_log_refused write_error
              (lit "Error listing PM2 processes: " ++ x1) w1 R)
    as (x2 & w2 & E2 & _ & H2).
  exists x2, w2. split; [|eauto].
  unfold Faulty.get_list.
  apply (try_catch_throw _ _ w x1 w1).
  - now apply bind_throw.
  - now apply bind_throw.
Qed.

Lemma list_needs_the_log_when_query_fails_witness :
  exists x w',
    Faulty.get_list log_read_only (world_with down_supervisor []) = (Throw x, w').
Proof.
  destruct (list_needs_the_log_when_query_fails log_read_only
              (world_with down_supervisor []) (lit "Command failed: pm2 jlist"))
    as (x & w' & E & _).
  - intros data. vm_compute. eauto.
  - reflexivity.
  - eauto.
Defined.

(** X10: when the supervisor query of getPM2Processes fails, the failure is
    printed on the console and handed to [log].  When the write of that
    line to the service log is taken, getPM2Processes returns the empty
    array and the line is in the service log.  When that write is
    refused, its error leaves getPM2Processes. *)
Theorem query_failure_and_log_write write_error w e :
  query_failure w e ->
  let line := log_line w (lit "Error getting PM2 processes: " ++ e) in
  (write_error logFile (line ++ [NL]) = None ->
   exists w',
     Faulty.getPM2Processes write_error w = (Ok (VArr []), w')
     /\ logged (asked (lit "pm2 jlist") w) w'
     /\ (exists extra, console w' = console w ++ line :: extra)
     /\ (exists f before,
           fs w' !! logFile = Some f /\ content f = before ++ line ++ [NL]))
  /\ (forall x,
        write_error logFile (line ++ [NL]) = Some x ->
        exists w',
          Faulty.getPM2Processes write_error w = (Throw x, w')
          /\ logged (asked (lit "pm2 jlist") w) w'
          /\ (exists extra, console w' = console w ++ line :: extra)).
Proof.
  intros Q line.
  pose proof (query_failure_thrown w e Q) as B.
  destruct (faulty_log_spec write_error
              (lit "Error getting PM2 processes: " ++ e)
              (asked (lit "pm2 jlist") w)) as (w1 & L1 & C1 & H).
  change (log_line (asked (lit "pm2 jlist") w) _) with line in *.
  change (console (asked (lit "pm2 jlist") w)) with (console w) in *.
  split.
  - intros Hw. rewrite Hw in H. destruct H as (w' & E & L & C & F).
    exists w'. split; [|split; [exact L|split; [now rewrite C|exact F]]].
    unfold Faulty.getPM2Processes.
    eapply try_catch_throw; [exact B|].
    now rewrite (bind_ok _ _ _ tt w' E).
  - intros x Hw. rewrite Hw in H.
    exists w1. split; [|split; [exact L1|exact C1]].
    unfold Faulty.getPM2Processes.
    eapply try_catch_throw; [exact B|].
    now apply bind_throw.
Qed.

Lemma query_failure_and_log_write_witness :
  (exists w',
     Faulty.getPM2Processes no_write_error (world_with down_supervisor [])
     = (Ok (VArr []), w')
     /\ console w'
        = [lit "[T0] Error getting PM2 processes: Command failed: pm2 jlist"])
  /\ (exists w',
        Faulty.getPM2Processes log_read_only (world_with down_supervisor [])
        = (Throw (lit "EACCES: permission denied, open '/var/www/pm2/logs/pm2-service.log'"),
           w')
        /\ console w'
           = [lit "[T0] Error getting PM2 processes: Command failed: pm2 jlist"]).
Proof.
  split.
  - destruct (query_failure_and_log_write no_write_error
                (world_with down_supervisor []) (lit "Command failed: pm2 jlist"))
      as [H _]; [reflexivity|].
    destruct H as (w' & E & _); [reflexivity|].
    exists w'. split; [exact E|].
    assert (w' = snd (Faulty.getPM2Processes no_write_error
                        (world_with down_supervisor []))) as ->
      by now rewrite E.
    vm_compute. reflexivity.
  - destruct (query_failure_and_log_write log_read_only
                (world_with down_supervisor []) (lit "Command failed: pm2 jlist"))
      as [_ H]; [reflexivity|].
    destruct (H (lit "EACCES: permission denied, open '/var/www/pm2/logs/pm2-service.log'"))
      as (w' & E & _); [vm_compute; reflexivity|].
    exists w'. split; [exact E|].
    assert (w' = snd (Faulty.getPM2Processes log_read_only
                        (world_with down_supervisor []))) as ->
      by now rewrite E.
    vm_compute. reflexivity.
Defined.

(** X12: one null entry in what the supervisor prints makes the whole listing
    empty: the mapping throws at that entry, the catch block logs and
    returns the empty array; the entries before it are lost.  Provided
    the service log takes every write. *)
Theorem null_entry_loses_listing write_error w out err l :
  log_taken write_error ->
  supervisor w (length (execd w)) (lit "pm2 jlist") = ExecOk out err ->
  JSON_parse w out = Ok (VArr l) ->
  VNull ∈ l ->
  exists w', Faulty.getPM2Processes write_error w = (Ok (VArr []), w')
             /\ length (console w') > length (console w).
Proof.
  intros T Hs Hj Hl. rewrite taken_getPM2Processes by assumption.
  exact (null_entry_empties_listing w out err l Hs Hj Hl).
Qed.

Lemma null_entry_loses_listing_witness :
  exists w',
    Faulty.getPM2Processes no_write_error
      (mkWorld None (fun _ => Ok (VArr [VObj [("name", str "api")]; VNull]))
               sample_supervisor [] ∅ 100 (lit "T0") [] [] [] [] ∅ [])
    = (Ok (VArr []), w').
Proof.
  destruct (null_entry_loses_listing no_write_error
              (mkWorld None (fun _ => Ok (VArr [VObj [("name", str "api")]; VNull]))
                       sample_supervisor [] ∅ 100 (lit "T0") [] [] [] [] ∅ [])
              (lit "[api]") [] [VObj [("name", str "api")]; VNull])
    as (w' & E & _).
  - intros data. reflexivity.
  - reflexivity.
  - reflexivity.
  - set_solver.
  - exists w'. exact E.
Defined.

(** ** Rotation of the service log, with writes that may be refused *)

(** X14: when the service log holds more than 5000 lines with text and the
    write is taken, [rotateLogs] rewrites it in place so that it holds
    exactly the last 5000 of them, in order; the file keeps its identity
    and nothing else changes but the console. *)
Theorem rotation_keeps_last_lines write_error w f :
  log_taken write_error ->
  fs w !! logFile = Some f -> readable f = true ->
  MAX_LOG_LINES < length (nonblank_lines (content f)) ->
  exists w' f',
    Faulty.rotateLogs write_error w = (Ok tt, w')
    /\ fs w' !! logFile = Some f'
    /\ ino f' = ino f
    /\ nonblank_lines (content f')
       = slice_last MAX_LOG_LINES (nonblank_lines (content f))
    /\ length (nonblank_lines (content f')) = MAX_LOG_LINES
    /\ logged w w'.
Proof.
  intros T Hf Hr Hlen. rewrite taken_rotateLogs by assumption.
  exact (rotateLogs_keeps_last_lines w f Hf Hr Hlen).
Qed.

Lemma rotation_keeps_last_lines_witness :
  exists w' f',
    Faulty.rotateLogs no_write_error
      (sample_world
         [(logFile, mkFile 9 true
                      (lines_text (lit "old" :: replicate 5000 (lit "x"))))])
    = (Ok tt, w')
    /\ fs w' !! logFile = Some f'
    /\ length (nonblank_lines (content f')) = 5000.
Proof.
  destruct (rotation_keeps_last_lines no_write_error
              (sample_world
                 [(logFile, mkFile 9 true
                              (lines_text (lit "old" :: replicate 5000 (lit "x"))))])
              (mkFile 9 true (lines_text (lit "old" :: replicate 5000 (lit "x")))))
    as (w' & f' & E & Hf & _ & _ & Hl & _).
  - intros data. reflexivity.
  - vm_compute. reflexivity.
  - reflexivity.
  - apply Nat.ltb_lt. vm_compute. reflexivity.
  - exists w', f'. split; [exact E|]. split; [exact Hf|exact Hl].
Defined.



(** X16: [rotateLogs] leaves the world as it is when the service log does not
    exist or holds at most 5000 lines with text, whatever the disk would
    answer to a write. *)
Theorem small_log_is_not_rotated write_error w :
  (fs w !! logFile = None
   \/ exists f, fs w !! logFile = Some f /\ readable f = true
                /\ length (nonblank_lines (content f)) <= MAX_LOG_LINES) ->
  Faulty.rotateLogs write_error w = (Ok tt, w).
Proof.
  intros [Hf|(f & Hf & Hr & Hlen)]; unfold Faulty.rotateLogs; apply try_catch_ok.
  - rewrite (bind_ok _ _ w false w); [reflexivity|].
    unfold existsSync. rewrite Hf. reflexivity.
  - rewrite (bind_ok _ _ w true w);
      [|unfold existsSync; rewrite Hf; reflexivity].
    cbn [negb].
    rewrite (bind_ok _ _ w (content f) w);
      [|rewrite readFileSync_spec, Hf, Hr; reflexivity].
    cbv zeta. rewrite (proj2 (Nat.ltb_ge _ _) Hlen). reflexivity.
Qed.

Lemma small_log_is_not_rotated_witness :
  Faulty.rotateLogs log_read_only
    (sample_world [(logFile, mkFile 9 true (ln "one" ++ ln "two"))])
  = (Ok tt, sample_world [(logFile, mkFile 9 true (ln "one" ++ ln "two"))]).
Proof.
  apply small_log_is_not_rotated. right.
  exists (mkFile 9 true (ln "one" ++ ln "two")).
  split; [vm_compute; reflexivity|]. split; [reflexivity|].
  apply Nat.leb_le. vm_compute. reflexivity.
Defined.

(** ** The backlog sent when a session starts *)

Lemma forEach_sendLog_open ws pn c lines : forall w s,
  sockets w !! ws = Some s -> readyState s = 1%N ->
  forEach (fun line => sendLog ws pn line c) lines w
  = (Ok tt, deliver ws (map (fun l => log_message pn c l (now w)) lines) w).
Proof.
  induction lines as [|l lines IH]; intros w s Hs Hr; simpl.
  - now rewrite deliver_nil.
  - rewrite (bind_ok _ _ w tt _ (sendLog_open _ _ _ _ _ _ Hs Hr)).
    rewrite (IH _ (add_sent [log_message pn c l (now w)] s)).
    + now rewrite deliver_deliver.
    + now apply deliver_lookup.
    + exact Hr.
Qed.

(** X21: on an open socket, [readExistingLogs] of a readable file sends
    one log message for each of the last hundred lines with text of the
    file, in the order of the file, and nothing else; it changes nothing
    but the socket. *)
Theorem backlog_is_last_hundred_lines w ws s pn path c f :
  sockets w !! ws = Some s -> readyState s = 1%N ->
  fs w !! path = Some f -> readable f = true ->
  let lines := nonblank_lines (content f) in
  let recent := drop (length lines - 100) lines in
  readExistingLogs ws pn path c w
  = (Ok tt, deliver ws (map (fun l => log_message pn c l (now w)) recent) w)
  /\ length recent <= 100
  /\ Forall well_formed recent.
Proof.
  intros Hs Hr Hf Hread lines recent. split; [|split].
  - unfold readExistingLogs. apply try_catch_ok.
    rewrite (bind_ok _ _ w true w);
      [|unfold existsSync; rewrite Hf, bool_decide_eq_true_2 by eauto; reflexivity].
    rewrite (bind_ok _ _ w (content f) w);
      [|rewrite readFileSync_spec, Hf, Hread; reflexivity].
    cbv zeta. unfold slice_last. fold lines. fold recent.
    exact (forEach_sendLog_open ws pn c recent w s Hs Hr).
  - unfold recent. rewrite length_drop. lia.
  - unfold recent, lines. apply Forall_drop, nonblank_lines_well_formed.
Qed.

Lemma backlog_is_last_hundred_lines_witness :
  sent_to 0
    (snd (readExistingLogs 0 (lit "api") (lit "/x.log") COut
            (snd (new_socket
                    (sample_world
                       [(lit "/x.log",
                         mkFile 7 true (lit "a" ++ [NL] ++ lit "b" ++ [NL]))])))))
  = [log_message (lit "api") COut (lit "a") (lit "T0");
     log_message (lit "api") COut (lit "b") (lit "T0")].
Proof.
  set (f := mkFile 7 true (lit "a" ++ [NL] ++ lit "b" ++ [NL])).
  set (w := snd (new_socket (sample_world [(lit "/x.log", f)]))).
  destruct (backlog_is_last_hundred_lines w 0 (mkWs 1 [] None false [] [])
              (lit "api") (lit "/x.log") COut f)
    as (H & _); [reflexivity|reflexivity|vm_compute; reflexivity|reflexivity|].
  rewrite H. vm_compute. reflexivity.
Defined.

(** ** Cleanup *)

(** X22: [cleanup] signals the tail process kept in [tailProcess], each
    time it is called (the close and the error listener both call it, and
    nothing makes it one-shot), and leaves every other tail process as it
    was. *)
Theorem cleanup_kills_recorded_tailer_only w env e :
  envs w !! env = Some e ->
  let w' := snd (cleanup env w) in
  fst (cleanup env w) = Ok tt
  /\ length (tails w') = length (tails w)
  /\ (forall h p, tails w !! h = Some p ->
        exists p', tails w' !! h = Some p'
          /\ t_kills p' = (if decide (tailProcess e = Some h)
                           then S (t_kills p) else t_kills p)
          /\ t_path p' = t_path p /\ t_open p' = t_open p
          /\ t_pos p' = t_pos p /\ t_channel p' = t_channel p)
  /\ (exists e', envs w' !! env = Some e'
                 /\ tailProcess e' = tailProcess e /\ watchers e' = [])
  /\ unwatched w' = unwatched w ++ watchers e
  /\ sockets w' = sockets w.
Proof.
  intros He. cbv zeta. unfold cleanup.
  rewrite (bind_ok _ _ w e w); [|unfold env_get; rewrite He; reflexivity].
  set (w1 := snd ((match tailProcess e with Some h => kill h | None => ret tt end) w)).
  assert ((match tailProcess e with Some h => kill h | None => ret tt end) w
          = (Ok tt, w1)) as E1 by (unfold w1; destruct (tailProcess e); reflexivity).
  rewrite (bind_ok _ _ w tt w1 E1).
  assert (forall ps v, forEach unwatchFile ps v
                       = (Ok tt, with_unwatched (unwatched v ++ ps) v)) as Hun.
  { induction ps as [|p ps IH]; intros v; simpl.
    - rewrite app_nil_r. now destruct v.
    - rewrite (bind_ok _ _ v tt (with_unwatched (unwatched v ++ [p]) v));
        [|reflexivity].
      rewrite IH. destruct v. simpl. now rewrite <- app_assoc. }
  rewrite (bind_ok _ _ w1 tt _ (Hun (watchers e) w1)).
  unfold set_watchers, modify.
  cbn [fst snd tails envs sockets unwatched with_envs with_unwatched].
  assert (envs w1 = envs w /\ sockets w1 = sockets w /\ unwatched w1 = unwatched w)
    as (He1 & Hs1 & Hu1)
    by (unfold w1; destruct (tailProcess e); auto).
  split; [reflexivity|]. split; [|split; [|split; [|split]]].
  - unfold w1. destruct (tailProcess e); [|reflexivity].
    unfold kill, modify. simpl. now rewrite length_alter.
  - intros h p Hp. unfold w1.
    destruct (decide (tailProcess e = Some h)) as [Hh|Hh].
    + rewrite Hh. unfold kill, modify. cbn [snd tails with_tails].
      rewrite list_lookup_alter_eq, Hp. simpl. eauto 10.
    + destruct (tailProcess e) as [h0|]; [|simpl; eauto 10].
      unfold kill, modify. cbn [snd tails with_tails].
      rewrite list_lookup_alter_ne by congruence. eauto 10.
  - rewrite He1, list_lookup_alter_eq, He. simpl. eauto.
  - now rewrite Hu1.
  - exact Hs1.
Qed.

Lemma cleanup_kills_recorded_tailer_only_witness :
  let w := with_envs [mkEnv (Some 0) []]
             (with_tails [mkTail (lit "/o.log") None 0 0 0 (lit "api") COut;
                          mkTail (lit "/e.log") None 0 0 0 (lit "api") CError]
                (sample_world [])) in
  (exists p, tails (snd (cleanup 0 w)) !! 0 = Some p /\ t_kills p = 1)
  /\ (exists p, tails (snd (cleanup 0 w)) !! 1 = Some p /\ t_kills p = 0).
Proof.
  cbv zeta.
  set (w := with_envs _ _).
  destruct (cleanup_kills_recorded_tailer_only w 0 (mkEnv (Some 0) []))
    as (_ & _ & H & _); [reflexivity|].
  destruct (H 0 (mkTail (lit "/o.log") None 0 0 0 (lit "api") COut) eq_refl)
    as (p0 & E0 & K0 & _).
  destruct (H 1 (mkTail (lit "/e.log") None 0 0 0 (lit "api") CError) eq_refl)
    as (p1 & E1 & K1 & _).
  split; [exists p0|exists p1]; (split; [assumption|]).
  - exact K0.
  - exact K1.
Defined.

(** ** The stderr tailers and [kill] *)

Lemma keeps_safe_refl w : keeps_safe w w.
Proof. now intros H. Qed.

Lemma keeps_safe_trans a b c : keeps_safe a b -> keeps_safe b c -> keeps_safe a c.
Proof. unfold keeps_safe. auto. Qed.

Lemma keeps_safe_frame w w' :
  tails w' = tails w -> envs w' = envs w -> keeps_safe w w'.
Proof. intros Ht He [H1 H2]. split; rewrite ?Ht, ?He; assumption. Qed.

Ltac ks_frame :=
  let w := fresh "w" in
  intros w; apply keeps_safe_frame; reflexivity.

Ltac ks_step :=
  lazymatch goal with
  | |- preserves _ (bind _ _) =>
      apply preserves_bind; [apply keeps_safe_trans| |intros ?]
  | |- preserves _ (try_catch _ _) =>
      apply preserves_try_catch; [apply keeps_safe_trans| |intros ?]
  | |- preserves _ (forEach _ _) =>
      apply preserves_forEach; [apply keeps_safe_refl|apply keeps_safe_trans|intros ?]
  | |- preserves _ (log ?m) =>
      let w := fresh "w" in
      let H := fresh "H" in
      let L := fresh "L" in
      intros w; destruct (log_spec m w) as (? & H & L & _); rewrite H;
      apply keeps_safe_frame; [apply (lg_tails _ _ L)|apply (lg_envs _ _ L)]
  | |- _ => ks_frame
  end.

Lemma keeps_safe_readFileSync path : preserves keeps_safe (readFileSync path).
Proof.
  intros w. rewrite readFileSync_spec. destruct (fs w !! path) as [f|];
    [destruct (readable f)|]; apply keeps_safe_refl.
Qed.

Lemma keeps_safe_getPM2Process name : preserves keeps_safe (getPM2Process name).
Proof.
  intros w. destruct (getPM2Process_spec name w) as (r & w' & E & L & _).
  rewrite E. cbn [snd].
  apply keeps_safe_frame;
    [rewrite (lg_tails _ _ L)|rewrite (lg_envs _ _ L)]; reflexivity.
Qed.

Lemma keeps_safe_sendLog ws pn line c : preserves keeps_safe (sendLog ws pn line c).
Proof.
  unfold sendLog. ks_step; [ks_step|]. destruct (N.eqb _ _); [|ks_step].
  ks_step; [|ks_step]. ks_step; [ks_step|]. unfold ws_send, ws_update. ks_step.
Qed.

Lemma keeps_safe_readExistingLogs ws pn path c :
  preserves keeps_safe (readExistingLogs ws pn path c).
Proof.
  unfold readExistingLogs. ks_step; [|ks_step].
  ks_step; [ks_step|]. destruct a; [|ks_step].
  ks_step; [apply keeps_safe_readFileSync|]. ks_step. apply keeps_safe_sendLog.
Qed.

Lemma keeps_safe_on_tail_data p data : preserves keeps_safe (on_tail_data p data).
Proof. unfold on_tail_data. ks_step. apply keeps_safe_sendLog. Qed.

(** A new tail process starts with no signal received. *)
Lemma stderr_safe_spawn w p :
  t_kills p = 0 -> stderr_safe w -> stderr_safe (with_tails (tails w ++ [p]) w).
Proof.
  intros Hk [H1 H2]. split; cbn [tails envs with_tails].
  - intros env e h He Hh. destruct (H1 env e h He Hh) as (q & Hq & Hc).
    exists q. split; [|exact Hc]. now apply lookup_app_l_Some.
  - intros h q Hq Hc. apply lookup_app_Some in Hq as [Hq|[_ Hq]].
    + now apply (H2 h q).
    + apply list_lookup_singleton_Some in Hq as [_ <-]. exact Hk.
Qed.

Lemma spawn_tail_world path ws pn c w :
  exists p, t_kills p = 0 /\ t_channel p = c
            /\ spawn_tail path ws pn c w
               = (Ok (length (tails w)), with_tails (tails w ++ [p]) w).
Proof.
  unfold spawn_tail. destruct (fs w !! path) as [f|];
    (eexists; split; [|split]; [| |reflexivity]; reflexivity).
Qed.

Lemma keeps_safe_tail_error ws pn logType path :
  preserves keeps_safe (tail_error ws pn logType path).
Proof.
  unfold tail_error. destruct (_ || _); [|ks_step].
  ks_step; [ks_step|]. destruct a; [|ks_step].
  ks_step; [apply keeps_safe_readExistingLogs|].
  ks_step; [|ks_step].
  intros w S. destruct (spawn_tail_world path ws pn CError w) as (p & Hk & _ & ->).
  now apply stderr_safe_spawn.
Qed.

(** The tailer recorded in [tailProcess] is the stdout tailer. *)
Lemma keeps_safe_tail_out env ws pn logType path :
  preserves keeps_safe (tail_out env ws pn logType path).
Proof.
  unfold tail_out. destruct (_ || _); [|ks_step].
  ks_step; [ks_step|]. destruct a; [|ks_step].
  ks_step; [apply keeps_safe_readExistingLogs|].
  intros w S. destruct (spawn_tail_world path ws pn COut w) as (p & Hk & Hc & E).
  rewrite (bind_ok _ _ w _ _ E).
  apply (stderr_safe_spawn w p Hk) in S. destruct S as [H1 H2].
  unfold set_tailProcess, modify. cbn [snd].
  split; cbn [tails envs with_envs with_tails] in *; [|exact H2].
  intros env' e h He Hh.
  destruct (decide (env = env')) as [<-|Hne].
  - rewrite list_lookup_alter_eq in He.
    destruct (envs w !! env) as [e0|]; [|discriminate].
    cbn in He. injection He as <-. cbn in Hh. injection Hh as <-.
    exists p. split; [|exact Hc].
    rewrite lookup_app_r by lia. now rewrite Nat.sub_diag.
  - rewrite list_lookup_alter_ne in He by assumption. now apply (H1 env' e h).
Qed.

Lemma keeps_safe_startTailing env ws pn logType :
  preserves keeps_safe (startTailing env ws pn logType).
Proof.
  unfold startTailing. ks_step; [ks_step|]. cbv zeta.
  ks_step; [apply keeps_safe_tail_out|apply keeps_safe_tail_error].
Qed.

Lemma keeps_safe_new_env : preserves keeps_safe new_env.
Proof.
  intros w [H1 H2]. unfold new_env. cbn [snd].
  split; cbn [tails envs with_envs]; [|exact H2].
  intros env e h He Hh. apply lookup_app_Some in He as [He|[_ He]].
  - now apply (H1 env e h).
  - apply list_lookup_singleton_Some in He as [_ <-]. discriminate.
Qed.

Lemma keeps_safe_streamLogs ws pn logType :
  preserves keeps_safe (streamLogs ws pn logType).
Proof.
  unfold streamLogs. ks_step; [apply keeps_safe_new_env|].
  ks_step; [apply keeps_safe_startTailing|].
  ks_step; [unfold ws_on_close, ws_update; ks_step|].
  ks_step; [unfold ws_on_error, ws_update; ks_step|ks_step].
Qed.

(** [cleanup] signals the tailer recorded in [tailProcess] and no
    other. *)
Lemma keeps_safe_cleanup env : preserves keeps_safe (cleanup env).
Proof.
  unfold cleanup. intros w S.
  rewrite (bind_ok _ _ w (default (mkEnv None []) (envs w !! env)) w);
    [|reflexivity].
  set (e := default (mkEnv None []) (envs w !! env)).
  revert S. revert w e.
  assert (forall e, preserves keeps_safe
            (forEach unwatchFile (watchers e) ;;; set_watchers env [])) as Hrest.
  { intros e. ks_step; [ks_step; intros w; apply keeps_safe_frame; reflexivity|].
    intros w [H1 H2]. unfold set_watchers, modify. cbn [snd].
    split; cbn [tails envs with_envs]; [|exact H2].
    intros env' e' h He Hh.
    destruct (decide (env = env')) as [<-|Hne].
    - rewrite list_lookup_alter_eq in He.
      destruct (envs w !! env) as [e0|] eqn:E0; [|discriminate].
      cbn in He. injection He as <-. cbn in Hh. now apply (H1 env e0 h).
    - rewrite list_lookup_alter_ne in He by assumption. now apply (H1 env' e' h). }
  intros w e S.
  apply (bind_at keeps_safe); [apply keeps_safe_trans| | |exact S].
  - destruct (tailProcess e) as [h|] eqn:Hh; [|apply keeps_safe_refl].
    intros [H1 H2].
    assert (envs w !! env = Some e) as He.
    { subst e. destruct (envs w !! env); [reflexivity|discriminate]. }
    destruct (H1 env e h He Hh) as (p & Hp & Hc).
    unfold kill, modify. cbn [snd].
    split; cbn [tails envs with_tails].
    + intros env' e' h' He' Hh'. destruct (H1 env' e' h' He' Hh') as (q & Hq & Hqc).
      destruct (decide (h = h')) as [<-|Hne].
      * rewrite list_lookup_alter_eq, Hq. cbn. eexists. split; [reflexivity|exact Hqc].
      * rewrite list_lookup_alter_ne by assumption. eauto.
    + intros h' q Hq Hqc. destruct (decide (h = h')) as [<-|Hne].
      * rewrite list_lookup_alter_eq, Hp in Hq. cbn in Hq. injection Hq as <-.
        cbn in Hqc. congruence.
      * rewrite list_lookup_alter_ne in Hq by assumption. now apply (H2 h' q).
  - intros _ w1 _. apply Hrest.
Qed.

Lemma keeps_safe_gateway_cleanup ws : preserves keeps_safe (gateway_cleanup ws).
Proof.
  unfold gateway_cleanup. ks_step; [ks_step|].
  ks_step; [|ks_step].
  destruct (wsConnections a !! ws) as [[pn env]|]; [apply keeps_safe_cleanup|ks_step].
Qed.

Lemma keeps_safe_run_listener ws error l :
  preserves keeps_safe (run_listener ws error l).
Proof.
  destruct l; cbn [run_listener].
  - apply keeps_safe_cleanup.
  - ks_step; [ks_step|apply keeps_safe_gateway_cleanup].
  - ks_step; [ks_step|apply keeps_safe_gateway_cleanup].
Qed.

Lemma keeps_safe_connection_then ws pn logType process :
  preserves keeps_safe (connection_then ws pn logType process).
Proof.
  destruct process; cbn [connection_then].
  - ks_step; [unfold ws_send, ws_update; ks_step|].
    ks_step; [apply keeps_safe_streamLogs|].
    ks_step; [ks_step|].
    ks_step; [unfold ws_on_message, ws_update; ks_step|].
    ks_step; [unfold ws_on_close, ws_update; ks_step|].
    unfold ws_on_error, ws_update. ks_step.
  - ks_step; [unfold ws_send, ws_update; ks_step|].
    unfold ws_close, ws_update. ks_step.
Qed.

Lemma keeps_safe_on_connection ws pn qtype gone :
  preserves keeps_safe (on_connection ws pn qtype gone).
Proof.
  unfold on_connection. cbv zeta. destruct (negb _).
  { unfold ws_close, ws_update. ks_step. }
  ks_step; [ks_step|]. ks_step.
  - ks_step; [apply keeps_safe_getPM2Process|].
    ks_step; [destruct gone; [unfold ws_set_state, ws_update|]; ks_step|].
    apply keeps_safe_connection_then.
  - ks_step; [ks_step|].
    ks_step; [unfold ws_send, ws_update; ks_step|].
    unfold ws_close, ws_update. ks_step.
Qed.

Lemma tail_advance_kept files p :
  t_kills (tail_advance files p) = t_kills p
  /\ t_channel (tail_advance files p) = t_channel p.
Proof.
  unfold tail_advance. destruct (negb _); [auto|].
  destruct (t_open p); [|auto]. destruct (files !! t_path p); [|auto].
  destruct (N.eqb _ _); auto.
Qed.

Lemma keeps_safe_handle e : preserves keeps_safe (handle e).
Proof.
  destruct e; cbn [handle].
  - ks_step; [unfold new_socket; ks_step|apply keeps_safe_on_connection].
  - ks_step; [ks_step|]. destruct (N.eqb _ _); [ks_step|].
    ks_step; [unfold ws_set_state, ws_update; ks_step|].
    ks_step. apply keeps_safe_run_listener.
  - ks_step; [ks_step|]. destruct (N.eqb _ _); [ks_step|].
    ks_step; [unfold ws_set_state, ws_update; ks_step|].
    ks_step. apply keeps_safe_run_listener.
  - ks_step; [ks_step|]. destruct (on_message a); [|ks_step].
    unfold on_ws_message. ks_step; [|ks_step].
    ks_step; [unfold parse; ks_step|]. ks_step; [ks_step|].
    destruct (strict_eq_str _ _); [unfold ws_send, ws_update|]; ks_step.
  - ks_step; [ks_step|]. destruct (tails a !! h); [|ks_step].
    apply keeps_safe_on_tail_data.
  - ks_step; [ks_step|]. destruct (tails a !! h); [|ks_step].
    unfold on_tail_stderr. ks_step.
  - unfold tail_poll. ks_step; [ks_step|]. destruct (tails a !! h) as [p|]; [|ks_step].
    ks_step.
    + intros w [H1 H2]. unfold modify. cbn [snd].
      split; cbn [tails envs with_tails].
      * intros env e h' He Hh. destruct (H1 env e h' He Hh) as (q & Hq & Hc).
        destruct (decide (h = h')) as [<-|Hne].
        -- rewrite list_lookup_alter_eq, Hq. cbn. eexists. split; [reflexivity|].
           now rewrite (proj2 (tail_advance_kept _ _)).
        -- rewrite list_lookup_alter_ne by assumption. eauto.
      * intros h' q Hq Hc. destruct (decide (h = h')) as [<-|Hne].
        -- rewrite list_lookup_alter_eq in Hq.
           destruct (tails w !! h) as [q0|] eqn:E0; [|discriminate].
           cbn in Hq. injection Hq as <-.
           rewrite (proj2 (tail_advance_kept _ _)) in Hc.
           rewrite (proj1 (tail_advance_kept _ _)). now apply (H2 h q0).
        -- rewrite list_lookup_alter_ne in Hq by assumption. now apply (H2 h' q).
    + destruct (tail_read (fs a) p).
      * ks_step.
      * ks_step. apply keeps_safe_on_tail_data.
      * ks_step; [unfold on_tail_stderr; ks_step|].
        destruct (truthy_str data); [|ks_step].
        ks_step. apply keeps_safe_on_tail_data.
  - intros w. apply keeps_safe_frame; unfold appendFileSync;
      now destruct (fs w !! path).
  - unfold replace_file. ks_step.
  - ks_step.
  - ks_step.
Qed.

Lemma stderr_safe_handle_all es w :
  stderr_safe w -> stderr_safe (handle_all es w).
Proof.
  apply (preserves_handle_all keeps_safe keeps_safe_refl keeps_safe_trans).
  intros e _. apply keeps_safe_handle.
Qed.

(** X23: from the start of the service on, whatever connects, closes, fails
    or is written, no stderr tailer is ever signalled: [kill] only ever
    reaches tail processes of the stdout channel. *)
Theorem stderr_tailers_are_never_signalled w es :
  tails w = [] -> envs w = [] ->
  forall h p,
    tails (handle_all es w) !! h = Some p ->
    t_kills p <> 0 -> t_channel p = COut.
Proof.
  intros Ht He h p Hp Hk.
  assert (stderr_safe w) as S.
  { split; rewrite ?Ht, ?He; intros; rewrite lookup_nil in *; discriminate. }
  apply (stderr_safe_handle_all es) in S. destruct S as [_ H2].
  destruct (t_channel p) eqn:Hc; [reflexivity|].
  exfalso. apply Hk. now apply (H2 h p).
Qed.

Lemma stderr_tailers_are_never_signalled_witness :
  let w := handle_all [Connection (lit "api") None false;
                       WsError 0 (lit "reset"); WsClose 0]
             (sample_world [(api_out, mkFile 1 true (ln "a"));
                            (api_error, mkFile 2 true (ln "e"))]) in
  tail_kills w = [(COut, 3); (CError, 0)]
  /\ exists p, tails w !! 0 = Some p /\ t_channel p = COut.
Proof.
  cbv zeta. split; [vm_compute; reflexivity|].
  eexists. split; [vm_compute; reflexivity|].
  apply (stderr_tailers_are_never_signalled
           (sample_world [(api_out, mkFile 1 true (ln "a"));
                          (api_error, mkFile 2 true (ln "e"))])
           [Connection (lit "api") None false; WsError 0 (lit "reset"); WsClose 0]
           eq_refl eq_refl 0).
  - vm_compute. reflexivity.
  - cbn. discriminate.
Defined.
